(** * Chat client: session store, transport stream reader, connection hook

    A shallow embedding of the TypeScript front end:
    - [chatStore]  (zustand + immer store: sessions, messages, send / stream
                    workflows, retry, export / import),
    - [ApiClient.streamChatMessage] (the server-sent-event reader),
    - [useChat]    (connection monitor and the retrying send wrapper).

    Conventions.
    - A JavaScript string is the list of its UTF-16 code units, so that
      [length] is [String.prototype.length].
    - The immer store is modelled by value: [set] produces a new state, and
      the copy of the current session kept in [sessions] is mirrored
      explicitly, exactly where the source calls [updateSessionInArray].
    - [Date.now()] and [generateId()] are draws from the runtime, indexed by
      a counter kept next to the store state.
    - An [await] on the network splits a workflow in two: the part that runs
      before the request is issued, and the part that resumes with the
      outcome. *)

From Stdlib Require Import ZArith NArith List Bool Lia.
From Stdlib Require DecimalString DecimalZ.
From stdpp Require Import base tactics option list numbers strings.

Set Default Proof Using "Type".
Set Warnings "-register-all".

(* ===================================================================== *)
(** ** JavaScript values *)
(* ===================================================================== *)

(** UTF-16 code units. *)
Definition JsString := list N.

Definition js (s : string) : JsString :=
  map Ascii.N_of_ascii (String.list_ascii_of_string s).
Arguments js s%_string : simpl never.

(** Numbers, as JSON writes them: [mantissa * 10 ^ exponent]. The code
    under study stores and copies numbers but never computes on them. *)
Record number := mkNumber {
  mantissa : Z;
  exponent : Z
}.

Definition number_of_Z (z : Z) : number := mkNumber z 0.

(** ECMAScript WhiteSpace and LineTerminator code points: what
    [String.prototype.trim] strips. *)
Definition isWhiteSpace (c : N) : bool :=
  ((9 <=? c) && (c <=? 13) || (c =? 32) || (c =? 160) || (c =? 5760)
   || (8192 <=? c) && (c <=? 8202) || (c =? 8232) || (c =? 8233)
   || (c =? 8239) || (c =? 8287) || (c =? 12288) || (c =? 65279))%N.

Fixpoint trimStart (s : JsString) : JsString :=
  match s with
  | c :: s' => if isWhiteSpace c then trimStart s' else s
  | [] => []
  end.

Definition trimEnd (s : JsString) : JsString :=
  reverse (trimStart (reverse s)).

Definition trim (s : JsString) : JsString := trimEnd (trimStart s).

(** [s.split(' ')]: always at least one piece. *)
Fixpoint split_on (sep : N) (s : JsString) : list JsString :=
  match s with
  | [] => [[]]
  | c :: s' =>
      if (c =? sep)%N then [] :: split_on sep s'
      else match split_on sep s' with
           | piece :: rest => (c :: piece) :: rest
           | [] => [[c]]
           end
  end.

(** [pieces.join(sep)]. *)
Fixpoint join (sep : JsString) (pieces : list JsString) : JsString :=
  match pieces with
  | [] => []
  | [p] => p
  | p :: rest => p ++ sep ++ join sep rest
  end.

(** [s.startsWith(prefix)]. *)
Fixpoint startsWith (prefix s : JsString) : bool :=
  match prefix, s with
  | [], _ => true
  | p :: prefix', c :: s' => (p =? c)%N && startsWith prefix' s'
  | _ :: _, [] => false
  end.

(** Values that [JSON.parse] can return. Object properties are kept in
    insertion order. *)
Inductive Json : Type :=
| JNull
| JBool (b : bool)
| JNum (n : number)
| JStr (s : JsString)
| JArr (items : list Json)
| JObj (props : list (JsString * Json)).

(** ToBoolean. *)
Definition truthy (v : Json) : bool :=
  match v with
  | JNull => false
  | JBool b => b
  | JNum n => negb (mantissa n =? 0)%Z
  | JStr s => negb (bool_decide (s = []))
  | JArr _ | JObj _ => true
  end.

Fixpoint assoc (k : JsString) (props : list (JsString * Json)) : option Json :=
  match props with
  | [] => None
  | (k', v) :: rest => if bool_decide (k' = k) then Some v else assoc k rest
  end.

(** Property read [v.k] on a non-null value; [None] is [undefined].
    Primitives and arrays have none of the properties read by this code. *)
Definition prop (k : JsString) (v : Json) : option Json :=
  match v with
  | JObj props => assoc k props
  | _ => None
  end.

(** Truthiness of a possibly-undefined value. *)
Definition truthy_opt (v : option Json) : bool :=
  match v with
  | Some v => truthy v
  | None => false
  end.

(** Truthiness of an optional string field ([undefined] and [''] are falsy). *)
Definition str_truthy (s : option JsString) : bool :=
  match s with
  | Some (_ :: _) => true
  | _ => false
  end.

(** Truthiness of an optional boolean field. *)
Definition flag_truthy (b : option bool) : bool :=
  match b with
  | Some true => true
  | _ => false
  end.

(* ===================================================================== *)
(** ** Data model ([types/chat.ts]) *)
(* ===================================================================== *)

Inductive MessageRole := user | assistant | system.

#[global] Instance MessageRole_eq_dec : EqDecision MessageRole.
Proof. solve_decision. Defined.

Module Message.

Record t := mk {
  id : JsString;
  role : MessageRole;
  content : JsString;
  timestamp : number;
  metadata : option Json;
  isLoading : option bool;
  error : option JsString
}.

(** [Partial<Message>]: the properties present in an update object. *)
Record partial := mkPartial {
  p_id : option JsString;
  p_role : option MessageRole;
  p_content : option JsString;
  p_timestamp : option number;
  p_metadata : option Json;
  p_isLoading : option bool;
  p_error : option JsString
}.

Definition no_updates : partial := mkPartial None None None None None None None.

(** [{ ...m, ...updates }] *)
Definition spread (m : t) (u : partial) : t :=
  mk (default (id m) (p_id u))
     (default (role m) (p_role u))
     (default (content m) (p_content u))
     (default (timestamp m) (p_timestamp u))
     (from_option Some (metadata m) (p_metadata u))
     (from_option Some (isLoading m) (p_isLoading u))
     (from_option Some (error m) (p_error u)).

End Message.

Module ChatSession.

Record t := mk {
  id : JsString;
  messages : list Message.t;
  created_at : number;
  updated_at : number;
  title : option JsString;
  location : option JsString
}.

Record partial := mkPartial {
  p_messages : option (list Message.t);
  p_updated_at : option number;
  p_title : option JsString
}.

(** [{ ...s, ...updates }] *)
Definition spread (s : t) (u : partial) : t :=
  mk (id s)
     (default (messages s) (p_messages u))
     (created_at s)
     (default (updated_at s) (p_updated_at u))
     (from_option Some (title s) (p_title u))
     (location s).

Definition with_messages (ms : list Message.t) (s : t) : t :=
  mk (id s) ms (created_at s) (updated_at s) (title s) (location s).

Definition with_updated_at (n : number) (s : t) : t :=
  mk (id s) (messages s) (created_at s) n (title s) (location s).

Definition with_title (ttl : JsString) (s : t) : t :=
  mk (id s) (messages s) (created_at s) (updated_at s) (Some ttl) (location s).

End ChatSession.

Module ChatState.

Record t := mk {
  currentSession : option ChatSession.t;
  sessions : list ChatSession.t;
  isLoading : bool;
  error : option JsString;
  isConnected : bool
}.

Definition with_currentSession (c : option ChatSession.t) (st : t) : t :=
  mk c (sessions st) (isLoading st) (error st) (isConnected st).

Definition with_sessions (l : list ChatSession.t) (st : t) : t :=
  mk (currentSession st) l (isLoading st) (error st) (isConnected st).

Definition with_isLoading (b : bool) (st : t) : t :=
  mk (currentSession st) (sessions st) b (error st) (isConnected st).

Definition with_error (e : option JsString) (st : t) : t :=
  mk (currentSession st) (sessions st) (isLoading st) e (isConnected st).

Definition with_isConnected (b : bool) (st : t) : t :=
  mk (currentSession st) (sessions st) (isLoading st) (error st) b.

(** The store's initial state. *)
Definition initial : t := mk None [] false None true.

End ChatState.

(* ===================================================================== *)
(** ** Transport boundary ([types/api.ts], [lib/api.ts]) *)
(* ===================================================================== *)

Record SendMessageOptions := mkOptions {
  opt_location : option JsString;
  opt_sessionId : option JsString;
  opt_streaming : option bool
}.

(** The default argument [options = {}]. *)
Definition no_options : SendMessageOptions := mkOptions None None None.

Record ChatQuery := mkChatQuery {
  text : JsString;
  q_location : option JsString;
  session_id : option JsString
}.

Record ContextSource := mkContextSource {
  src_id : JsString;
  src_title : JsString;
  src_content : JsString;
  relevance_score : number;
  source_type : JsString
}.

Record ChatResponse := mkChatResponse {
  response : JsString;
  confidence_score : number;
  risk_assessment : Json;
  context_sources : option (list ContextSource);
  processing_time : option number
}.

(** What a [catch] clause can receive. *)
Inductive Thrown :=
| APIError (message : JsString)
| OtherError (message : JsString)
| NotAnError.

(** Outcome of an awaited call. *)
Inductive Outcome (A : Type) :=
| Resolved (a : A)
| Rejected (e : Thrown).
Arguments Resolved {A} a.
Arguments Rejected {A} e.

(** One invocation of a callback handed to [streamChatMessage]. The
    signatures declare string payloads; the reader passes on whatever the
    parsed record holds, hence the parameter. *)
Inductive Callback (P : Type) :=
| onChunk (chunk : P)
| onMetadata (metadata : Json)
| onError (error : P)
| onComplete.
Arguments onChunk {P} chunk.
Arguments onMetadata {P} metadata.
Arguments onError {P} error.
Arguments onComplete {P}.

Definition terminal {P} (cb : Callback P) : bool :=
  match cb with
  | onError _ | onComplete => true
  | onChunk _ | onMetadata _ => false
  end.

(* ===================================================================== *)
(** ** Runtime services and the store monad *)
(* ===================================================================== *)

(** What the code asks of the JavaScript runtime. [generateId] concatenates
    [Date.now()] and a slice of [Math.random()]; its result is an opaque
    draw. [JSON_parse] returns [None] when [JSON.parse] throws. *)
Class Runtime := {
  generateId_draw : nat -> JsString;
  Date_now_draw : nat -> number;
  JSON_parse : JsString -> option Json;
  JSON_stringify : Json -> JsString
}.

(** The store state together with the number of draws made so far. *)
Record World := mkWorld {
  state : ChatState.t;
  draws : nat
}.

Definition M (A : Type) : Type := World -> A * World.

#[global] Instance M_ret : MRet M := λ A a w, (a, w).
#[global] Instance M_bind : MBind M :=
  λ A B f m w, let '(a, w') := m w in f a w'.

(** zustand's [get()] and [set(recipe)]. *)
Definition get : M ChatState.t := λ w, (state w, w).

Definition set (recipe : ChatState.t -> ChatState.t) : M unit :=
  λ w, (tt, mkWorld (recipe (state w)) (draws w)).

Definition exec {A} (m : M A) (w : World) : World := snd (m w).

Section Store.
Context `{Runtime}.

Definition generateId : M JsString :=
  λ w, (generateId_draw (draws w), mkWorld (state w) (S (draws w))).

Definition Date_now : M number :=
  λ w, (Date_now_draw (draws w), mkWorld (state w) (S (draws w))).

(* --------------------------------------------------------------------- *)
(** *** Utility functions *)

Definition generateSessionTitle (firstMessage : JsString) : JsString :=
  let trimmed := trim firstMessage in
  if bool_decide (trimmed = []) then js "New Chat"
  else
    let words := take 6 (split_on 32 trimmed) in
    let title := join (js " ") words in
    if (length title <? length trimmed)%nat then title ++ js "..." else title.

Definition validateMessage (content : JsString) : option JsString :=
  if bool_decide (trim content = []) then Some (js "Message cannot be empty")
  else if (10000 <? Z.of_nat (length content))%Z
       then Some (js "Message too long (max 10000 characters)")
       else None.

Definition updateSessionInArray (sessions : list ChatSession.t)
    (sessionId : JsString) (updates : ChatSession.partial)
  : list ChatSession.t :=
  match list_find (λ s, ChatSession.id s = sessionId) sessions with
  | None => sessions
  | Some (index, s) => <[index := ChatSession.spread s updates]> sessions
  end.

(* --------------------------------------------------------------------- *)
(** *** Session management *)

Definition createSession : M unit :=
  set (λ st, ChatState.with_error None (ChatState.with_isLoading true st));;
  newId ← generateId;
  created ← Date_now;
  updated ← Date_now;
  let newSession := ChatSession.mk newId [] created updated None None in
  set (λ st,
    ChatState.with_isLoading false
      (ChatState.with_sessions (newSession :: ChatState.sessions st)
         (ChatState.with_currentSession (Some newSession) st))).

(** [loadSession]: an empty id only sets the error; an unknown id sets the
    error and rejects with the same message. *)
Definition loadSession (sessionId : JsString) : M (Outcome unit) :=
  if bool_decide (sessionId = []) then
    set (ChatState.with_error (Some (js "Invalid session ID")));;
    mret (Resolved tt)
  else
    set (λ st, ChatState.with_error None (ChatState.with_isLoading true st));;
    st ← get;
    match list_find (λ s, ChatSession.id s = sessionId) (ChatState.sessions st) with
    | None =>
        set (λ st, ChatState.with_isLoading false
                     (ChatState.with_error (Some (js "Session not found")) st));;
        mret (Rejected (OtherError (js "Session not found")))
    | Some (_, session) =>
        set (λ st, ChatState.with_isLoading false
                     (ChatState.with_currentSession (Some session) st));;
        mret (Resolved tt)
    end.

Definition clearCurrentSession : M unit :=
  set (λ st, ChatState.with_error None (ChatState.with_currentSession None st)).

Definition deleteSession (sessionId : JsString) : M unit :=
  set (λ st,
    let st' :=
      ChatState.with_sessions
        (filter (λ s, ChatSession.id s ≠ sessionId) (ChatState.sessions st)) st in
    match ChatState.currentSession st' with
    | Some c =>
        if bool_decide (ChatSession.id c = sessionId)
        then ChatState.with_currentSession None st'
        else st'
    | None => st'
    end).

Definition clearAllSessions : M unit :=
  set (λ st, ChatState.with_error None
               (ChatState.with_currentSession None
                  (ChatState.with_sessions [] st))).

Definition setLoading (isLoading : bool) : M unit :=
  set (ChatState.with_isLoading isLoading).

Definition setError (error : option JsString) : M unit :=
  set (ChatState.with_error error).

Definition setConnected (isConnected : bool) : M unit :=
  set (ChatState.with_isConnected isConnected).

Definition clearError : M unit := set (ChatState.with_error None).

(* --------------------------------------------------------------------- *)
(** *** Message handling *)

(** The argument of [addMessage]: a message object whose [id] and
    [timestamp] may be absent. *)
Record MessageData := mkMessageData {
  d_id : option JsString;
  d_timestamp : option number;
  d_role : MessageRole;
  d_content : JsString;
  d_metadata : option Json;
  d_isLoading : option bool;
  d_error : option JsString
}.

Definition data_of (m : Message.t) : MessageData :=
  mkMessageData (Some (Message.id m)) (Some (Message.timestamp m))
    (Message.role m) (Message.content m) (Message.metadata m)
    (Message.isLoading m) (Message.error m).

Definition addMessage (messageData : MessageData) : M unit :=
  freshId ← generateId;
  now ← Date_now;
  let message :=
    Message.mk (default freshId (d_id messageData))
      (d_role messageData) (d_content messageData)
      (default now (d_timestamp messageData))
      (d_metadata messageData) (d_isLoading messageData) (d_error messageData) in
  st ← get;
  match ChatState.currentSession st with
  | Some c =>
      t1 ← Date_now;
      t2 ← Date_now;
      set (λ st,
        let c' := ChatSession.with_updated_at t1
                    (ChatSession.with_messages (ChatSession.messages c ++ [message]) c) in
        ChatState.with_sessions
          (updateSessionInArray (ChatState.sessions st) (ChatSession.id c')
             (ChatSession.mkPartial (Some (ChatSession.messages c')) (Some t2) None))
          (ChatState.with_currentSession (Some c') st))
  | None => mret tt
  end.

Definition updateMessage (messageId : JsString) (updates : Message.partial) : M unit :=
  set (λ st,
    match ChatState.currentSession st with
    | Some c =>
        match list_find (λ m, Message.id m = messageId) (ChatSession.messages c) with
        | Some (messageIndex, m) =>
            let c' := ChatSession.with_messages
                        (<[messageIndex := Message.spread m updates]> (ChatSession.messages c)) c in
            ChatState.with_sessions
              (updateSessionInArray (ChatState.sessions st) (ChatSession.id c')
                 (ChatSession.mkPartial (Some (ChatSession.messages c')) None None))
              (ChatState.with_currentSession (Some c') st)
        | None => st
        end
    | None => st
    end).

Definition deleteMessage (messageId : JsString) : M unit :=
  set (λ st,
    match ChatState.currentSession st with
    | Some c =>
        let c' := ChatSession.with_messages
                    (filter (λ m, Message.id m ≠ messageId) (ChatSession.messages c)) c in
        ChatState.with_sessions
          (updateSessionInArray (ChatState.sessions st) (ChatSession.id c')
             (ChatSession.mkPartial (Some (ChatSession.messages c')) None None))
          (ChatState.with_currentSession (Some c') st)
    | None => st
    end).

(* --------------------------------------------------------------------- *)
(** *** The blocking send workflow *)

(** Where an asynchronous workflow stands when it first yields: it has
    returned without touching the network, or it has issued [query] and
    waits for the outcome. *)
Inductive Suspended :=
| Returned
| Awaiting (query : ChatQuery) (assistantMessageId : JsString).

(** [metadata] attached to the assistant message on success; properties
    whose value is [undefined] are left out. *)
Definition response_metadata (r : ChatResponse) : Json :=
  JObj ([(js "confidence_score", JNum (confidence_score r));
         (js "risk_assessment", risk_assessment r)]
        ++ match context_sources r with
           | Some l =>
               [(js "context_sources",
                 JArr ((λ source,
                   JObj [(js "id", JStr (src_id source));
                         (js "title", JStr (src_title source));
                         (js "relevance_score", JNum (relevance_score source))]) <$> l))]
           | None => []
           end
        ++ match processing_time r with
           | Some t => [(js "processing_time", JNum t)]
           | None => []
           end).

(** Validation, session creation and the two [addMessage] calls, shared
    verbatim by [sendMessage] and [streamMessage]. *)
Definition begin_send (content : JsString) (options : SendMessageOptions)
  : M Suspended :=
  match validateMessage content with
  | Some validation =>
      set (ChatState.with_error (Some validation));; mret Returned
  | None =>
      st ← get;
      currentSession ←
        match ChatState.currentSession st with
        | Some c => mret (Some c)
        | None => createSession;; st' ← get; mret (ChatState.currentSession st')
        end;
      match currentSession with
      | None =>
          set (ChatState.with_error (Some (js "Failed to create session")));;
          mret Returned
      | Some currentSession =>
          userId ← generateId;
          userTime ← Date_now;
          let userMessage :=
            Message.mk userId user (trim content) userTime None None None in
          assistantMessageId ← generateId;
          assistantTime ← Date_now;
          let assistantMessage :=
            Message.mk assistantMessageId assistant [] assistantTime
              None (Some true) None in
          addMessage (data_of userMessage);;
          addMessage (data_of assistantMessage);;
          set (λ st, ChatState.with_error None (ChatState.with_isLoading true st));;
          mret (Awaiting
                  (mkChatQuery content (opt_location options)
                     (Some (ChatSession.id currentSession)))
                  assistantMessageId)
      end
  end.

(** [sendMessage] up to [await apiClient.sendChatMessage(query)]. *)
Definition sendMessage_begin := begin_send.

(** [sendMessage] from the point where the awaited call settles. *)
Definition sendMessage_resume (query : ChatQuery) (assistantMessageId : JsString)
    (outcome : Outcome ChatResponse) : M unit :=
  let content := text query in
  match outcome with
  | Resolved r =>
      updateMessage assistantMessageId
        (Message.mkPartial None None (Some (response r)) None
           (Some (response_metadata r)) (Some false) None);;
      st ← get;
      match ChatState.currentSession st with
      | Some session =>
          if bool_decide
               (length (filter (λ m, Message.role m = user)
                          (ChatSession.messages session)) = 1%nat)
          then
            let title := generateSessionTitle content in
            t1 ← Date_now;
            t2 ← Date_now;
            set (λ st,
              match ChatState.currentSession st with
              | Some c =>
                  ChatState.with_sessions
                    (updateSessionInArray (ChatState.sessions st)
                       (ChatSession.id session)
                       (ChatSession.mkPartial None (Some t2) (Some title)))
                    (ChatState.with_currentSession
                       (Some (ChatSession.with_updated_at t1
                                (ChatSession.with_title title c))) st)
              | None => st
              end)
          else mret tt
      | None => mret tt
      end
  | Rejected e =>
      let errorMessage :=
        match e with
        | APIError message => message
        | _ => js "Failed to send message"
        end in
      updateMessage assistantMessageId
        (Message.mkPartial None None
           (Some (js "Sorry, I encountered an error. Please try again."))
           None None (Some false) (Some errorMessage));;
      set (ChatState.with_error (Some errorMessage))
  end;;
  set (ChatState.with_isLoading false).

(** The whole workflow, given how the transport answers a query. *)
Definition sendMessage (transport : ChatQuery -> Outcome ChatResponse)
    (content : JsString) (options : SendMessageOptions) : M unit :=
  suspended ← sendMessage_begin content options;
  match suspended with
  | Returned => mret tt
  | Awaiting query assistantMessageId =>
      sendMessage_resume query assistantMessageId (transport query)
  end.

(* --------------------------------------------------------------------- *)
(** *** The streaming workflow *)

(** [streamMessage] up to [await apiClient.streamChatMessage(...)]. *)
Definition streamMessage_begin := begin_send.

(** The four closures passed to [streamChatMessage]. They share the
    variable [accumulatedContent]; each invocation returns its new value. *)
Definition stream_callback (assistantMessageId : JsString)
    (accumulatedContent : JsString) (cb : Callback JsString) : M JsString :=
  match cb with
  | onChunk chunk =>
      let accumulatedContent := accumulatedContent ++ chunk in
      updateMessage assistantMessageId
        (Message.mkPartial None None (Some accumulatedContent) None None
           (Some true) None);;
      mret accumulatedContent
  | onMetadata metadata =>
      updateMessage assistantMessageId
        (Message.mkPartial None None None None (Some metadata) None None);;
      mret accumulatedContent
  | onError error =>
      updateMessage assistantMessageId
        (Message.mkPartial None None
           (Some (match accumulatedContent with
                  | [] => js "Sorry, I encountered an error."
                  | _ :: _ => accumulatedContent
                  end))
           None None (Some false) (Some error));;
      set (λ st, ChatState.with_isLoading false
                   (ChatState.with_error (Some error) st));;
      mret accumulatedContent
  | onComplete =>
      updateMessage assistantMessageId
        (Message.mkPartial None None None None None (Some false) None);;
      set (ChatState.with_isLoading false);;
      mret accumulatedContent
  end.

(** The store while the reader invokes the callbacks [cbs] in order. *)
Fixpoint stream_callbacks (assistantMessageId : JsString)
    (accumulatedContent : JsString) (cbs : list (Callback JsString))
  : M JsString :=
  match cbs with
  | [] => mret accumulatedContent
  | cb :: cbs =>
      accumulatedContent ← stream_callback assistantMessageId accumulatedContent cb;
      stream_callbacks assistantMessageId accumulatedContent cbs
  end.

(** The [catch] clause around the awaited stream. *)
Definition streamMessage_catch (assistantMessageId : JsString) (e : Thrown) : M unit :=
  let errorMessage :=
    match e with
    | APIError message => message
    | _ => js "Failed to stream message"
    end in
  updateMessage assistantMessageId
    (Message.mkPartial None None
       (Some (js "Sorry, I encountered an error. Please try again."))
       None None (Some false) (Some errorMessage));;
  set (λ st, ChatState.with_isLoading false
               (ChatState.with_error (Some errorMessage) st)).

(** [streamMessage] from the point where the stream is opened: the
    callbacks fire, then the awaited call settles. *)
Definition streamMessage_resume (assistantMessageId : JsString)
    (cbs : list (Callback JsString)) (settled : Outcome unit) : M unit :=
  stream_callbacks assistantMessageId [] cbs;;
  match settled with
  | Resolved _ => mret tt
  | Rejected e => streamMessage_catch assistantMessageId e
  end.

Definition streamMessage
    (transport : ChatQuery -> list (Callback JsString) * Outcome unit)
    (content : JsString) (options : SendMessageOptions) : M unit :=
  suspended ← streamMessage_begin content options;
  match suspended with
  | Returned => mret tt
  | Awaiting query assistantMessageId =>
      let '(cbs, settled) := transport query in
      streamMessage_resume assistantMessageId cbs settled
  end.

(* --------------------------------------------------------------------- *)
(** *** Retry *)

(** [retryLastMessage] up to the network call of the [sendMessage] it
    ends with. *)
Definition retryLastMessage_begin : M Suspended :=
  st ← get;
  match ChatState.currentSession st with
  | None => mret Returned
  | Some currentSession =>
      if (length (ChatSession.messages currentSession) <? 2)%nat then mret Returned
      else
        match list_find (λ m, Message.role m = user)
                (rev (ChatSession.messages currentSession)) with
        | None => mret Returned
        | Some (_, lastUserMessage) =>
            match last (ChatSession.messages currentSession) with
            | Some lastMessage =>
                if bool_decide (Message.role lastMessage = assistant)
                   && (str_truthy (Message.error lastMessage)
                       || flag_truthy (Message.isLoading lastMessage))
                then deleteMessage (Message.id lastMessage)
                else mret tt
            | None => mret tt
            end;;
            sendMessage_begin (Message.content lastUserMessage) no_options
        end
  end.

Definition retryLastMessage (transport : ChatQuery -> Outcome ChatResponse)
  : M unit :=
  suspended ← retryLastMessage_begin;
  match suspended with
  | Returned => mret tt
  | Awaiting query assistantMessageId =>
      sendMessage_resume query assistantMessageId (transport query)
  end.

(* --------------------------------------------------------------------- *)
(** *** Export and import *)

Definition role_name (r : MessageRole) : JsString :=
  match r with
  | user => js "user"
  | assistant => js "assistant"
  | system => js "system"
  end.

(** A property that is left out when its value is [undefined]. *)
Definition optional_prop (k : JsString) (v : option Json) : list (JsString * Json) :=
  match v with
  | Some v => [(k, v)]
  | None => []
  end.

(** The object that [JSON.stringify] sees for a message and for a session. *)
Definition json_of_message (m : Message.t) : Json :=
  JObj ([(js "id", JStr (Message.id m));
         (js "role", JStr (role_name (Message.role m)));
         (js "content", JStr (Message.content m));
         (js "timestamp", JNum (Message.timestamp m))]
        ++ optional_prop (js "metadata") (Message.metadata m)
        ++ optional_prop (js "isLoading") (JBool <$> Message.isLoading m)
        ++ optional_prop (js "error") (JStr <$> Message.error m)).

Definition json_of_session (s : ChatSession.t) : Json :=
  JObj ([(js "id", JStr (ChatSession.id s));
         (js "messages", JArr (json_of_message <$> ChatSession.messages s));
         (js "created_at", JNum (ChatSession.created_at s));
         (js "updated_at", JNum (ChatSession.updated_at s))]
        ++ optional_prop (js "title") (JStr <$> ChatSession.title s)
        ++ optional_prop (js "location") (JStr <$> ChatSession.location s)).

Definition as_string (v : Json) : option JsString :=
  match v with JStr s => Some s | _ => None end.

Definition as_number (v : Json) : option number :=
  match v with JNum n => Some n | _ => None end.

Definition as_role (v : Json) : option MessageRole :=
  match v with
  | JStr s =>
      if bool_decide (s = js "user") then Some user
      else if bool_decide (s = js "assistant") then Some assistant
      else if bool_decide (s = js "system") then Some system
      else None
  | _ => None
  end.

(** An optional property read at a declared type: absent is fine, present
    at another type is not. *)
Definition optional_as {A} (as_A : Json -> option A) (v : option Json)
  : option (option A) :=
  match v with
  | None => Some None
  | Some v => Some <$> as_A v
  end.

Definition as_bool (v : Json) : option bool :=
  match v with JBool b => Some b | _ => None end.

(** Reading a parsed object at type [Message]; [None] when the object
    does not have that type. Properties that [Message] does not declare
    are not represented. *)
Definition message_of_json (v : Json) : option Message.t :=
  id ← prop (js "id") v ≫= as_string;
  role ← prop (js "role") v ≫= as_role;
  content ← prop (js "content") v ≫= as_string;
  timestamp ← prop (js "timestamp") v ≫= as_number;
  isLoading ← optional_as as_bool (prop (js "isLoading") v);
  error ← optional_as as_string (prop (js "error") v);
  Some (Message.mk id role content timestamp (prop (js "metadata") v) isLoading error).

(** The object literal that [exportSession] serialises. *)
Definition export_object (session : ChatSession.t) (exported_at : number) : Json :=
  JObj [(js "session", json_of_session session);
        (js "exported_at", JNum exported_at);
        (js "version", JStr (js "1.0"))].

(** [exportSession]. *)
Definition exportSession : M (option JsString) :=
  st ← get;
  match ChatState.currentSession st with
  | None => mret None
  | Some currentSession =>
      exported_at ← Date_now;
      mret (Some (JSON_stringify (export_object currentSession exported_at)))
  end.

Definition isArray (v : Json) : bool :=
  match v with JArr _ => true | _ => false end.

(** The guard of [importSession]: [Some session] when the parsed value
    passes, [None] when the guard throws (including the TypeError of
    reading [.session] of [null]). *)
Definition import_guard (parsed : Json) : option Json :=
  match parsed with
  | JNull => None
  | _ =>
      match prop (js "session") parsed with
      | None | Some JNull => None
      | Some session =>
          let messages := prop (js "messages") session in
          if negb (truthy_opt messages)
             || negb (from_option isArray false messages)
          then None
          else Some session
      end
  end.

(** The properties that [{ ...parsed.session, id, created_at, updated_at }]
    takes from the payload, read at type [ChatSession]. *)
Definition imported_props (session : Json)
  : option (list Message.t * option JsString * option JsString) :=
  messages ← match prop (js "messages") session with
              | Some (JArr items) => mapM message_of_json items
              | _ => None
              end;
  title ← optional_as as_string (prop (js "title") session);
  location ← optional_as as_string (prop (js "location") session);
  Some (messages, title, location).

(** [importSession]. The result is [None] when the payload passes the
    guard without being a [ChatSession]: the store then holds an object of
    no declared type, which this embedding does not represent. Otherwise
    the boolean is the function's return value. *)
Definition importSession (data : JsString) (w : World) : option (bool * World) :=
  match JSON_parse data ≫= import_guard with
  | None =>
      Some (false, exec (set (ChatState.with_error
                                (Some (js "Invalid session data format")))) w)
  | Some parsed_session =>
      '(messages, title, location) ← imported_props parsed_session;
      Some (true, exec (
        newId ← generateId;
        created ← Date_now;
        updated ← Date_now;
        let session := ChatSession.mk newId messages created updated title location in
        set (λ st,
          ChatState.with_error None
            (ChatState.with_sessions (session :: ChatState.sessions st)
               (ChatState.with_currentSession (Some session) st)))) w)
  end.

End Store.

(* ===================================================================== *)
(** ** Transport client: [streamChatMessage] *)
(* ===================================================================== *)

(** How the body of a streaming response ends: [reader.read()] reports
    [done], or it throws. *)
Inductive ReadEnd :=
| EndOfStream
| ReadThrows (e : Thrown).

(** What [this.request] and the reader deliver to one call: the request
    is rejected, the response has no body, or the body yields the decoded
    texts [reads], one per [reader.read()], and then ends. *)
Inductive StreamResponse :=
| RequestThrows (e : Thrown)
| NoBody
| Body (reads : list JsString) (ending : ReadEnd).

Section Transport.
Context `{Runtime}.

(** [parsed.type === name]. *)
Definition has_type (name : JsString) (parsed : Json) : bool :=
  match prop (js "type") parsed with
  | Some (JStr s) => bool_decide (s = name)
  | _ => false
  end.

(** The body of [for (const line of lines)]: the callbacks it invokes, and
    whether it leaves the function ([return]). *)
Definition process_line (line : JsString) : list (Callback Json) * bool :=
  if startsWith (js "data: ") line then
    let data := drop 6 line in
    if bool_decide (data = js "[DONE]") then ([onComplete], true)
    else
      match JSON_parse data with
      | None | Some JNull => ([], false)
      | Some parsed =>
          if has_type (js "error") parsed then
            ([onError (match prop (js "error") parsed with
                       | Some e => if truthy e then e else JStr (js "Stream error occurred")
                       | None => JStr (js "Stream error occurred")
                       end)], true)
          else
            ((if has_type (js "chunk") parsed then
                match prop (js "content") parsed with
                | Some content => if truthy content then [onChunk content] else []
                | None => []
                end
              else [])
             ++
             (if has_type (js "metadata") parsed then
                match prop (js "metadata") parsed with
                | Some metadata => if truthy metadata then [onMetadata metadata] else []
                | None => []
                end
              else []),
             false)
      end
  else ([], false).

Fixpoint process_lines (lines : list JsString) : list (Callback Json) * bool :=
  match lines with
  | [] => ([], false)
  | line :: lines =>
      let '(cbs, returned) := process_line line in
      if returned then (cbs, true)
      else let '(cbs', returned') := process_lines lines in
           (cbs ++ cbs', returned')
  end.

(** The message handed to [onError] by the outer [catch]. *)
Definition caught_message (e : Thrown) : Json :=
  match e with
  | APIError message => JStr message
  | OtherError message => JStr message
  | NotAnError => JStr (js "Stream error occurred")
  end.

(** The [while (true)] loop over [reader.read()]. *)
Fixpoint read_loop (reads : list JsString) (ending : ReadEnd)
  : list (Callback Json) :=
  match reads with
  | [] =>
      match ending with
      | EndOfStream => [onComplete]
      | ReadThrows e => [onError (caught_message e)]
      end
  | chunk :: reads =>
      let '(cbs, returned) := process_lines (split_on 10 chunk) in
      if returned then cbs else cbs ++ read_loop reads ending
  end.

(** The callbacks invoked by one call, in order. *)
Definition streamChatMessage (r : StreamResponse) : list (Callback Json) :=
  match r with
  | RequestThrows e => [onError (caught_message e)]
  | NoBody => [onError (JStr (js "No response body received"))]
  | Body reads ending => read_loop reads ending
  end.

End Transport.

(* ===================================================================== *)
(** ** The [useChat] hook: connection monitor and retrying send *)
(* ===================================================================== *)

(** A timeout set with [setTimeout] and neither fired nor cleared. *)
Record Timer := mkTimer {
  handle : nat;
  delay : Z
}.

Record Hook := mkHook {
  store_isConnected : bool;
  store_error : option JsString;
  timeouts : list Timer;
  next_handle : nat;
  reconnectTimeoutRef : option nat
}.

Definition hook_initial : Hook := mkHook true None [] 0 None.

(** [checkConnection], given how [apiClient.healthCheck()] settles. *)
Definition checkConnection (probe : Outcome unit) (h : Hook) : Hook :=
  match probe with
  | Resolved _ =>
      mkHook true None (timeouts h) (next_handle h) (reconnectTimeoutRef h)
  | Rejected _ =>
      let t := mkTimer (next_handle h) 5000 in
      mkHook false (Some (js "Connection lost. Attempting to reconnect..."))
        (timeouts h ++ [t]) (S (next_handle h)) (Some (handle t))
  end.

Definition clearTimeout (k : nat) (h : Hook) : Hook :=
  mkHook (store_isConnected h) (store_error h)
    (filter (λ t, handle t ≠ k) (timeouts h)) (next_handle h)
    (reconnectTimeoutRef h).

(** A pending timeout fires: it leaves the pending set and its callback
    runs [checkConnection]. Firing a timeout that is not pending does
    nothing. *)
Definition fire (k : nat) (probe : Outcome unit) (h : Hook) : Hook :=
  if bool_decide (k ∈ map handle (timeouts h))
  then checkConnection probe (clearTimeout k h)
  else h.

(** The effect's cleanup, as far as timeouts go. *)
Definition cleanup (h : Hook) : Hook :=
  match reconnectTimeoutRef h with
  | Some k => clearTimeout k h
  | None => h
  end.

(** Observable steps of the retrying send. *)
Inductive Step :=
| Send
| Wait (ms : Z)
| Probe.

#[global] Instance Step_eq_dec : EqDecision Step.
Proof. solve_decision. Defined.

Definition maxRetries : nat := 3.

Section SendWithRetry.

(** [isConnected] is the value destructured from the store when the hook
    rendered: a constant for the whole call. [send k] is how the store's
    [sendMessage] / [streamMessage] settles when invoked for the [k]-th
    time (from 0), [health k] how the probe made after [k] failed attempts
    settles. *)
Variable isConnected : bool.
Variable send : nat -> Outcome unit.
Variable health : nat -> Outcome unit.

(** [attemptSend]; [attempt] is the shared counter on entry. The fuel
    bounds the recursion depth. *)
Fixpoint attemptSend (fuel : nat) (attempt : nat) (h : Hook)
  : option (Outcome unit * list Step * Hook) :=
  match fuel with
  | O => None
  | S fuel =>
      match send attempt with
      | Resolved _ => Some (Resolved tt, [Send], h)
      | Rejected error =>
          let attempt := S attempt in
          if (attempt <? maxRetries)%nat && negb isConnected then
            let h := checkConnection (health attempt) h in
            if isConnected then
              '(r, steps, h) ← attemptSend fuel attempt h;
              Some (r, [Send; Wait (2000 * Z.of_nat attempt); Probe] ++ steps, h)
            else Some (Rejected error, [Send; Wait (2000 * Z.of_nat attempt); Probe], h)
          else Some (Rejected error, [Send], h)
      end
  end.

Definition sendMessageWithRetry (h : Hook)
  : option (Outcome unit * list Step * Hook) :=
  attemptSend maxRetries 0 h.

Definition attempts (steps : list Step) : nat :=
  length (filter (λ s, s = Send) steps).

End SendWithRetry.

(** The callback built by a render that saw the hook in state [rendered]:
    its [isConnected] is the store's flag at that moment. *)
Definition rendered_sendMessageWithRetry (rendered : Hook) :=
  sendMessageWithRetry (store_isConnected rendered).

(* --------------------------------------------------------------------- *)
(** *** Values that the hook derives from the store *)

(** [isTyping], for the [currentSession] the hook rendered with. The
    source returns [false] or the last message's [isLoading]; the result
    here is its truthiness. *)
Definition isTyping (currentSession : option ChatSession.t) : bool :=
  match currentSession with
  | None => false
  | Some currentSession =>
      match last (ChatSession.messages currentSession) with
      | Some lastMessage =>
          bool_decide (Message.role lastMessage = assistant)
          && flag_truthy (Message.isLoading lastMessage)
      | None => false
      end
  end.

(** [getLastError], for the [error] and [currentSession] the hook
    rendered with; [None] is [null]. *)
Definition getLastError (error : option JsString)
    (currentSession : option ChatSession.t) : option JsString :=
  if str_truthy error then error
  else
    match currentSession with
    | Some currentSession =>
        match last (ChatSession.messages currentSession) with
        | Some lastMessage =>
            if str_truthy (Message.error lastMessage)
            then Message.error lastMessage
            else None
        | None => None
        end
    | None => None
    end.

(* ===================================================================== *)
(** ** A reference runtime *)
(* ===================================================================== *)

(** A small JSON printer and parser and deterministic id and clock draws,
    used to run the model on concrete inputs. The general statements below
    hold for every [Runtime]. *)
Module RefJSON.

Definition digits_of_Z (z : Z) : JsString :=
  js (DecimalString.NilZero.string_of_int (Z.to_int z)).

Definition hex_digit (n : N) : N :=
  if (n <? 10)%N then (48 + n)%N else (87 + n)%N.

Definition escape_unit (c : N) : JsString :=
  if (c =? 34)%N then [92; 34]%N
  else if (c =? 92)%N then [92; 92]%N
  else if (c <? 32)%N
       then [92; 117; 48; 48; hex_digit (c / 16); hex_digit (c mod 16)]%N
       else [c].

Definition print_string (s : JsString) : JsString :=
  [34%N] ++ concat (map escape_unit s) ++ [34%N].

Definition print_number (n : number) : JsString :=
  digits_of_Z (mantissa n)
  ++ (if (exponent n =? 0)%Z then [] else [101%N] ++ digits_of_Z (exponent n)).

Definition newline_indent (depth : nat) : JsString :=
  10%N :: repeat 32%N (2 * depth).

(** [JSON.stringify(v, null, 2)] at nesting [depth]. *)
Fixpoint print (depth : nat) (v : Json) : JsString :=
  match v with
  | JNull => js "null"
  | JBool true => js "true"
  | JBool false => js "false"
  | JNum n => print_number n
  | JStr s => print_string s
  | JArr [] => js "[]"
  | JArr items =>
      [91%N]
      ++ (fix go (items : list Json) : JsString :=
            match items with
            | [] => []
            | x :: rest =>
                newline_indent (S depth) ++ print (S depth) x
                ++ match rest with [] => [] | _ :: _ => [44%N] end
                ++ go rest
            end) items
      ++ newline_indent depth ++ [93%N]
  | JObj [] => js "{}"
  | JObj props =>
      [123%N]
      ++ (fix go (props : list (JsString * Json)) : JsString :=
            match props with
            | [] => []
            | (k, x) :: rest =>
                newline_indent (S depth) ++ print_string k ++ [58; 32]%N
                ++ print (S depth) x
                ++ match rest with [] => [] | _ :: _ => [44%N] end
                ++ go rest
            end) props
      ++ newline_indent depth ++ [125%N]
  end.

Definition is_ws (c : N) : bool :=
  ((c =? 32) || (c =? 9) || (c =? 10) || (c =? 13))%N.

Fixpoint skip_ws (s : JsString) : JsString :=
  match s with
  | c :: s' => if is_ws c then skip_ws s' else s
  | [] => []
  end.

Definition is_digit (c : N) : bool := ((48 <=? c) && (c <=? 57))%N.

(** Reads a run of decimal digits: value, number of digits, rest. *)
Fixpoint read_digits (acc : Z) (count : Z) (s : JsString) : Z * Z * JsString :=
  match s with
  | c :: s' =>
      if is_digit c
      then read_digits (10 * acc + Z.of_N (c - 48)) (count + 1) s'
      else (acc, count, s)
  | [] => (acc, count, [])
  end.

Definition read_signed (s : JsString) : option (Z * JsString) :=
  let '(negative, s) :=
    match s with
    | c :: s' => if (c =? 45)%N then (true, s')
                 else if (c =? 43)%N then (false, s') else (false, s)
    | [] => (false, s)
    end in
  let '(v, count, rest) := read_digits 0 0 s in
  if (count =? 0)%Z then None
  else Some (if negative then (- v)%Z else v, rest).

Definition read_number (s : JsString) : option (number * JsString) :=
  let '(negative, s) :=
    match s with
    | c :: s' => if (c =? 45)%N then (true, s') else (false, s)
    | [] => (false, s)
    end in
  let '(int_part, count, rest) := read_digits 0 0 s in
  if (count =? 0)%Z then None
  else
    let '(m, e, rest) :=
      match rest with
      | c :: rest' =>
          if (c =? 46)%N
          then let '(m, k, rest'') := read_digits int_part 0 rest' in (m, (- k)%Z, rest'')
          else (int_part, 0%Z, rest)
      | [] => (int_part, 0%Z, rest)
      end in
    let m := if negative then (- m)%Z else m in
    match rest with
    | c :: rest' =>
        if (c =? 101)%N || (c =? 69)%N
        then '(x, rest'') ← read_signed rest'; Some (mkNumber m (e + x), rest'')
        else Some (mkNumber m e, rest)
    | [] => Some (mkNumber m e, rest)
    end.

Definition hex_value (c : N) : option N :=
  if is_digit c then Some (c - 48)%N
  else if ((97 <=? c) && (c <=? 102))%N then Some (c - 87)%N
  else if ((65 <=? c) && (c <=? 70))%N then Some (c - 55)%N
  else None.

(** The characters of a string literal after its opening quote. *)
Fixpoint read_string (acc : JsString) (s : JsString) : option (JsString * JsString) :=
  match s with
  | [] => None
  | c :: rest =>
      if (c =? 34)%N then Some (rev acc, rest)
      else if (c =? 92)%N then
        match rest with
        | e :: rest' =>
            if (e =? 117)%N then
              match rest' with
              | a :: b :: c' :: d :: rest'' =>
                  match hex_value a, hex_value b, hex_value c', hex_value d with
                  | Some a, Some b, Some c', Some d =>
                      read_string ((((a * 16 + b) * 16 + c') * 16 + d)%N :: acc) rest''
                  | _, _, _, _ => None
                  end
              | _ => None
              end
            else
              let unescaped :=
                if (e =? 110)%N then Some 10%N
                else if (e =? 116)%N then Some 9%N
                else if (e =? 114)%N then Some 13%N
                else if (e =? 98)%N then Some 8%N
                else if (e =? 102)%N then Some 12%N
                else if (e =? 34)%N || (e =? 92)%N || (e =? 47)%N then Some e
                else None in
              match unescaped with
              | Some u => read_string (u :: acc) rest'
              | None => None
              end
        | [] => None
        end
      else if (c <? 32)%N then None
      else read_string (c :: acc) rest
  end.

Definition expect (word : JsString) (v : Json) (s : JsString)
  : option (Json * JsString) :=
  if startsWith word s then Some (v, drop (length word) s) else None.

Fixpoint read_value (fuel : nat) (s : JsString) : option (Json * JsString) :=
  match fuel with
  | O => None
  | S fuel =>
      match skip_ws s with
      | [] => None
      | c :: rest =>
          if (c =? 110)%N then expect (js "null") JNull (c :: rest)
          else if (c =? 116)%N then expect (js "true") (JBool true) (c :: rest)
          else if (c =? 102)%N then expect (js "false") (JBool false) (c :: rest)
          else if (c =? 34)%N then
            '(str, rest') ← read_string [] rest; Some (JStr str, rest')
          else if (c =? 91)%N then
            match skip_ws rest with
            | c' :: rest' =>
                if (c' =? 93)%N then Some (JArr [], rest')
                else '(items, rest'') ← read_items fuel [] rest; Some (JArr items, rest'')
            | [] => None
            end
          else if (c =? 123)%N then
            match skip_ws rest with
            | c' :: rest' =>
                if (c' =? 125)%N then Some (JObj [], rest')
                else '(props, rest'') ← read_props fuel [] rest; Some (JObj props, rest'')
            | [] => None
            end
          else '(n, rest') ← read_number (c :: rest); Some (JNum n, rest')
      end
  end
with read_items (fuel : nat) (acc : list Json) (s : JsString)
  : option (list Json * JsString) :=
  match fuel with
  | O => None
  | S fuel =>
      '(v, rest) ← read_value fuel s;
      match skip_ws rest with
      | c :: rest' =>
          if (c =? 44)%N then read_items fuel (v :: acc) rest'
          else if (c =? 93)%N then Some (rev (v :: acc), rest')
          else None
      | [] => None
      end
  end
with read_props (fuel : nat) (acc : list (JsString * Json)) (s : JsString)
  : option (list (JsString * Json) * JsString) :=
  match fuel with
  | O => None
  | S fuel =>
      match skip_ws s with
      | q :: rest =>
          if (q =? 34)%N then
            '(k, rest) ← read_string [] rest;
            match skip_ws rest with
            | colon :: rest =>
                if (colon =? 58)%N then
                  '(v, rest) ← read_value fuel rest;
                  match skip_ws rest with
                  | c :: rest' =>
                      if (c =? 44)%N then read_props fuel ((k, v) :: acc) rest'
                      else if (c =? 125)%N then Some (rev ((k, v) :: acc), rest')
                      else None
                  | [] => None
                  end
                else None
            | [] => None
            end
          else None
      | [] => None
      end
  end.

Definition stringify (v : Json) : JsString := print 0 v.

Definition parse (s : JsString) : option Json :=
  '(v, rest) ← read_value (2 * length s + 2) s;
  match skip_ws rest with
  | [] => Some v
  | _ :: _ => None
  end.

End RefJSON.

Definition reference_runtime : Runtime := {|
  generateId_draw k := js "id-" ++ RefJSON.digits_of_Z (Z.of_nat k);
  Date_now_draw k := number_of_Z (1700000000000 + Z.of_nat k);
  JSON_parse := RefJSON.parse;
  JSON_stringify := RefJSON.stringify
|}.

(* ===================================================================== *)
(** ** Notions used in the statements *)
(* ===================================================================== *)

(** Empty or whitespace-only content. *)
Definition blank (s : JsString) : bool := forallb isWhiteSpace s.

(** The messages of the current session; none when there is no session. *)
Definition prior_messages (st : ChatState.t) : list Message.t :=
  from_option ChatSession.messages [] (ChatState.currentSession st).

(** The message list after [updateMessage messageId updates]. *)
Definition patched (messageId : JsString) (updates : Message.partial)
    (ms : list Message.t) : list Message.t :=
  match list_find (λ m, Message.id m = messageId) ms with
  | Some (i, m) => <[i := Message.spread m updates]> ms
  | None => ms
  end.

(** The texts delivered by the [onChunk] invocations of a trace. *)
Definition chunks (cbs : list (Callback JsString)) : list JsString :=
  omap (λ cb, match cb with onChunk chunk => Some chunk | _ => None end) cbs.

(** A callback trace with exactly one terminal callback, in last position. *)
Definition ends_once {P} (cbs : list (Callback P)) : Prop :=
  ∃ before t, cbs = before ++ [t] ∧ terminal t = true
              ∧ Forall (λ cb, terminal cb = false) before.

(** [parsed.session.messages], when it is a list. *)
Definition payload_messages (parsed : Json) : option (list Json) :=
  match prop (js "session") parsed with
  | Some session =>
      match prop (js "messages") session with
      | Some (JArr items) => Some items
      | _ => None
      end
  | None => None
  end.

(** [currentSession] is an entry of [sessions]. *)
Definition current_in_sessions (st : ChatState.t) : Prop :=
  match ChatState.currentSession st with
  | Some c => ChatSession.id c ∈ ChatSession.id <$> ChatState.sessions st
  | None => True
  end.

(** Exactly one user message and exactly one assistant message. *)
Definition one_user_one_assistant (ms : list Message.t) : Prop :=
  length (filter (λ m, Message.role m = user) ms) = 1
  ∧ length (filter (λ m, Message.role m = assistant) ms) = 1.

Section Workflow.
Context `{Runtime}.

(** The draw counter at which [begin_send] builds its two messages: a
    missing session costs three draws first. *)
Definition send_base (w : World) : nat :=
  match ChatState.currentSession (state w) with
  | Some _ => draws w
  | None => 3 + draws w
  end.

(** The two messages built by [begin_send] from draw [k] on. *)
Definition user_message (content : JsString) (k : nat) : Message.t :=
  Message.mk (generateId_draw k) user (trim content) (Date_now_draw (1 + k))
    None None None.

Definition placeholder (k : nat) : Message.t :=
  Message.mk (generateId_draw (2 + k)) assistant [] (Date_now_draw (3 + k))
    None (Some true) None.

(** The update that [sendMessage] applies to the placeholder once the
    request has settled. *)
Definition settled_updates (outcome : Outcome ChatResponse) : Message.partial :=
  match outcome with
  | Resolved r =>
      Message.mkPartial None None (Some (response r)) None
        (Some (response_metadata r)) (Some false) None
  | Rejected e =>
      Message.mkPartial None None
        (Some (js "Sorry, I encountered an error. Please try again."))
        None None (Some false)
        (Some (match e with
               | APIError message => message
               | _ => js "Failed to send message"
               end))
  end.

End Workflow.

(* --------------------------------------------------------------------- *)
(** *** Reachable states *)

(** [m] keeps the state property [I]. *)
Definition preserves {A} (I : ChatState.t → Prop) (m : M A) : Prop :=
  ∀ w, I (state w) → I (state (snd (m w))).

Section Reachability.
Context `{Runtime}.

(** The store's actions, cut at their suspension points: between two of
    these segments any other one may run. *)
Inductive segment : M unit → Prop :=
| seg_createSession : segment createSession
| seg_loadSession sessionId : segment (loadSession sessionId;; mret tt)
| seg_clearCurrentSession : segment clearCurrentSession
| seg_deleteSession sessionId : segment (deleteSession sessionId)
| seg_clearAllSessions : segment clearAllSessions
| seg_addMessage d : segment (addMessage d)
| seg_updateMessage messageId updates : segment (updateMessage messageId updates)
| seg_deleteMessage messageId : segment (deleteMessage messageId)
| seg_setLoading b : segment (setLoading b)
| seg_setError e : segment (setError e)
| seg_setConnected b : segment (setConnected b)
| seg_clearError : segment clearError
| seg_begin_send content options : segment (begin_send content options;; mret tt)
| seg_sendMessage_resume query aid outcome :
    segment (sendMessage_resume query aid outcome)
| seg_stream_callback aid acc cb : segment (stream_callback aid acc cb;; mret tt)
| seg_streamMessage_catch aid e : segment (streamMessage_catch aid e)
| seg_retryLastMessage_begin : segment (retryLastMessage_begin;; mret tt)
| seg_exportSession : segment (exportSession;; mret tt).

(** The store starts with no current session and the persisted sessions;
    it then runs segments and imports, those imports on which
    [importSession] has a result in this typed embedding: of payloads
    that are rejected, and of payloads whose session has the declared
    type [ChatSession]. *)
Inductive reachable : World → Prop :=
| reach_start sessions k :
    reachable (mkWorld (ChatState.mk None sessions false None true) k)
| reach_segment w m : reachable w → segment m → reachable (exec m w)
| reach_import w data b w' :
    reachable w → importSession data w = Some (b, w') → reachable w'.

End Reachability.

(** The reader's invocation at the declared signature, when its payload
    is a string. *)
Definition typed (cb : Callback Json) : option (Callback JsString) :=
  match cb with
  | onChunk (JStr chunk) => Some (onChunk chunk)
  | onChunk _ => None
  | onMetadata metadata => Some (onMetadata metadata)
  | onError (JStr error) => Some (onError error)
  | onError _ => None
  | onComplete => Some onComplete
  end.

(* --------------------------------------------------------------------- *)
(** *** The connection monitor as a transition system *)

Inductive HookEvent :=
| ProbeSettles (probe : Outcome unit)
| TimeoutFires (k : nat) (probe : Outcome unit)
| Unmount.

Definition hook_step (h : Hook) (ev : HookEvent) : Hook :=
  match ev with
  | ProbeSettles probe => checkConnection probe h
  | TimeoutFires k probe => fire k probe h
  | Unmount => cleanup h
  end.

Definition hook_run (evs : list HookEvent) : Hook :=
  foldl hook_step hook_initial evs.

(** Well-formed pending timeouts: 5000 ms each, distinct handles, all
    already allocated. *)
Definition timers_wf (h : Hook) : Prop :=
  Forall (λ t, delay t = 5000%Z ∧ handle t < next_handle h) (timeouts h)
  ∧ NoDup (handle <$> timeouts h).

(* --------------------------------------------------------------------- *)
(** *** The stored copy of the current session *)

(** The entry of [sessions] that [updateSessionInArray] and [loadSession]
    find for the id of [c]: the first one carrying it. *)
Definition stored_copy (st : ChatState.t) (c : ChatSession.t)
  : option ChatSession.t :=
  snd <$> list_find (λ s, ChatSession.id s = ChatSession.id c)
            (ChatState.sessions st).

(** Two session objects that differ at most in [updated_at]. *)
Definition same_but_updated_at (s c : ChatSession.t) : Prop :=
  ChatSession.id s = ChatSession.id c
  ∧ ChatSession.messages s = ChatSession.messages c
  ∧ ChatSession.created_at s = ChatSession.created_at c
  ∧ ChatSession.title s = ChatSession.title c
  ∧ ChatSession.location s = ChatSession.location c.

(** The stored copy of the current session, if there is one, is up to
    date. *)
Definition mirrored (st : ChatState.t) : Prop :=
  match ChatState.currentSession st with
  | Some c => ∀ s, stored_copy st c = Some s → same_but_updated_at s c
  | None => True
  end.

(** The ids of the stored sessions, in order. *)
Definition session_ids (st : ChatState.t) : list JsString :=
  ChatSession.id <$> ChatState.sessions st.

Definition ids_are (l : list JsString) (st : ChatState.t) : Prop :=
  session_ids st = l.

(** The ids that [begin_send] puts in front of [sessions]: the id of the
    session it creates when valid content is sent without a current
    session. *)
Definition created_by_send `{Runtime} (content : JsString) (w : World)
  : list JsString :=
  match validateMessage content, ChatState.currentSession (state w) with
  | None, None => [generateId_draw (draws w)]
  | _, _ => []
  end.

(* --------------------------------------------------------------------- *)
(** *** Outcomes of the workflows *)

(** The error text that [sendMessage] reports for a rejected request. *)
Definition send_error (e : Thrown) : JsString :=
  match e with
  | APIError message => message
  | _ => js "Failed to send message"
  end.

Definition user_messages (ms : list Message.t) : list Message.t :=
  filter (λ m, Message.role m = user) ms.

(** The content that [streamMessage]'s [onError] gives the placeholder. *)
Definition error_content (accumulatedContent : JsString) : JsString :=
  match accumulatedContent with
  | [] => js "Sorry, I encountered an error."
  | _ :: _ => accumulatedContent
  end.

(** The messages that [retryLastMessage] keeps before it re-sends: all of
    them, or all but those carrying the id of a last assistant message
    that failed or is still loading. *)
Definition retry_kept (ms : list Message.t) : list Message.t :=
  match last ms with
  | Some lastMessage =>
      if bool_decide (Message.role lastMessage = assistant)
         && (str_truthy (Message.error lastMessage)
             || flag_truthy (Message.isLoading lastMessage))
      then filter (λ m, Message.id m ≠ Message.id lastMessage) ms
      else ms
  | None => ms
  end.

(* --------------------------------------------------------------------- *)
(** *** Lines and payloads of the stream *)

(** The payload of an invocation is truthy. *)
Definition payload_truthy (cb : Callback Json) : bool :=
  match cb with
  | onChunk chunk => truthy chunk
  | onMetadata metadata => truthy metadata
  | onError error => truthy error
  | onComplete => true
  end.

(** The payloads of [importSession] that this typed embedding
    represents: those that the guard rejects, and those whose session
    reads at the declared type [ChatSession]. *)
Definition declared_payload `{Runtime} (data : JsString) : Prop :=
  match JSON_parse data ≫= import_guard with
  | Some session => is_Some (imported_props session)
  | None => True
  end.

(** A line that the loop body passes over: not a [data: ] line, or a
    record that [JSON.parse] rejects. *)
Definition ignored_line `{Runtime} (line : JsString) : Prop :=
  startsWith (js "data: ") line = false
  ∨ (drop 6 line ≠ js "[DONE]" ∧ JSON_parse (drop 6 line) = None).

(* --------------------------------------------------------------------- *)
(** *** Concrete inputs *)

(** A fresh store. *)
Definition fresh_world : World := mkWorld ChatState.initial 0.

(** A transport that is unreachable. *)
Definition unreachable (q : ChatQuery) : Outcome ChatResponse :=
  Rejected (APIError (js "Network error: Unable to connect to the server")).

(** The store after a first message ["a"] was sent and the request
    failed, and what it then holds: a session with the user message and
    the assistant message marked with the error. *)
Definition failed_world : World :=
  Eval vm_compute in
    exec (@sendMessage reference_runtime unreachable (js "a") no_options) fresh_world.

Definition failed_user : Message.t :=
  Message.mk (js "id-3") user (js "a") (number_of_Z 1700000000004) None None None.

Definition failed_assistant : Message.t :=
  Message.mk (js "id-5") assistant
    (js "Sorry, I encountered an error. Please try again.")
    (number_of_Z 1700000000006) None (Some false)
    (Some (js "Network error: Unable to connect to the server")).

Definition failed_session : ChatSession.t :=
  ChatSession.mk (js "id-0") [failed_user; failed_assistant]
    (number_of_Z 1700000000001) (number_of_Z 1700000000013) None None.

(** A transport that answers every query. *)
Definition answering (q : ChatQuery) : Outcome ChatResponse :=
  Resolved (mkChatResponse (js "Apply at the registrar.") (mkNumber 9 (-1))
              (JObj [(js "overall_risk", JStr (js "low"))]) None None).

(** Content of 10001 characters. *)
Definition long_content : JsString := repeat 97%N (Z.to_nat 10001).

(** The store after [createSession] on a fresh store: one session, no
    message. *)
Definition empty_session_world : World :=
  Eval vm_compute in exec (@createSession reference_runtime) fresh_world.

(** The query and the placeholder id of the send that led to
    [failed_world]. *)
Definition failed_query : ChatQuery :=
  mkChatQuery (js "a") None (Some (js "id-0")).

Definition failed_placeholder_id : JsString := js "id-5".

(** What [exportSession] returns in [failed_world]. *)
Definition exported_failed_session : JsString :=
  Eval vm_compute in
    default [] (fst (@exportSession reference_runtime failed_world)).

(** A store whose current session, as an import can leave it, holds a
    user message with blank content followed by a failed answer. *)
Definition blank_user : Message.t :=
  Message.mk (js "m-1") user (js "  ") (number_of_Z 1700000000001) None None None.

Definition blank_retry_session : ChatSession.t :=
  ChatSession.mk (js "s-1") [blank_user; failed_assistant]
    (number_of_Z 1700000000000) (number_of_Z 1700000000002) None None.

Definition blank_retry_world : World :=
  mkWorld (ChatState.mk (Some blank_retry_session) [blank_retry_session]
             false None true) 0.


(** An unspecific failure of the network call. *)
Definition network_failure : Outcome ChatResponse :=
  Rejected (APIError (js "Network error: Unable to connect to the server")).

(* ===================================================================== *)
(** ** Proofs: strings and validation *)
(* ===================================================================== *)

Ltac run_store :=
  unfold mbind, M_bind, mret, M_ret, get, set, generateId, Date_now, exec;
  cbn.

Lemma trimStart_nil_iff s : trimStart s = [] ↔ blank s = true.
Proof.
  induction s as [|c s IH]; simpl; [done|].
  destruct (isWhiteSpace c); simpl; [done|]. split; done.
Qed.

Lemma trimStart_head s c s' : trimStart s = c :: s' → isWhiteSpace c = false.
Proof.
  induction s as [|d s IH]; simpl; [done|].
  destruct (isWhiteSpace d) eqn:E; [done|]. intros [= -> _]. done.
Qed.

Lemma blank_reverse s : blank (reverse s) = blank s.
Proof.
  unfold blank. induction s as [|c s IH]; [done|].
  rewrite reverse_cons, forallb_app, IH. simpl. rewrite andb_true_r. apply andb_comm.
Qed.

Lemma trim_nil_iff s : trim s = [] ↔ blank s = true.
Proof.
  unfold trim, trimEnd. split.
  - intros Hnil. apply trimStart_nil_iff.
    destruct (trimStart s) as [|c s'] eqn:E; [done|].
    apply trimStart_head in E.
    assert (Hb : blank (reverse (c :: s')) = true).
    { apply trimStart_nil_iff.
      apply (f_equal reverse) in Hnil. by rewrite reverse_involutive in Hnil. }
    rewrite blank_reverse in Hb. simpl in Hb. by rewrite E in Hb.
  - intros Hb. apply trimStart_nil_iff in Hb. by rewrite Hb.
Qed.

Section Validation.
Context `{Runtime}.

Lemma validateMessage_blank content :
  blank content = true →
  validateMessage content = Some (js "Message cannot be empty").
Proof.
  intros Hb. unfold validateMessage. apply trim_nil_iff in Hb.
  by rewrite bool_decide_eq_true_2.
Qed.

Lemma validateMessage_long content :
  blank content = false → (10000 < Z.of_nat (length content))%Z →
  validateMessage content = Some (js "Message too long (max 10000 characters)").
Proof.
  intros Hb Hlen. unfold validateMessage.
  rewrite bool_decide_eq_false_2.
  - by apply Z.ltb_lt in Hlen as ->.
  - intros Ht. apply trim_nil_iff in Ht. congruence.
Qed.

Lemma validateMessage_ok content :
  blank content = false → (Z.of_nat (length content) ≤ 10000)%Z →
  validateMessage content = None.
Proof.
  intros Hb Hlen. unfold validateMessage.
  rewrite bool_decide_eq_false_2.
  - by apply Z.ltb_ge in Hlen as ->.
  - intros Ht. apply trim_nil_iff in Ht. congruence.
Qed.

Lemma begin_send_invalid content options w e :
  validateMessage content = Some e →
  begin_send content options w
  = (Returned, mkWorld (ChatState.with_error (Some e) (state w)) (draws w)).
Proof. intros Hv. unfold begin_send. rewrite Hv. reflexivity. Qed.

(** C4. Content that is empty or whitespace-only, or longer than 10000
    characters, makes [sendMessage] and [streamMessage] set the store
    error (the empty-message text when the content is blank, the too-long
    text otherwise) and do nothing else: every other field of the state
    is unchanged, no id or timestamp is drawn, and the workflow returns
    before any query is handed to the transport. *)
Theorem invalid_content_only_sets_error content options w :
  blank content = true ∨ (10000 < Z.of_nat (length content))%Z →
  let message :=
    if blank content then js "Message cannot be empty"
    else js "Message too long (max 10000 characters)" in
  let w' := mkWorld (ChatState.with_error (Some message) (state w)) (draws w) in
  sendMessage_begin content options w = (Returned, w')
  ∧ streamMessage_begin content options w = (Returned, w')
  ∧ (∀ transport, sendMessage transport content options w = (tt, w'))
  ∧ (∀ transport, streamMessage transport content options w = (tt, w')).
Proof.
  intros Hbad message w'.
  assert (Hv : validateMessage content = Some message).
  { subst message. destruct (blank content) eqn:Hb.
    - by apply validateMessage_blank.
    - destruct Hbad as [|Hlen]; [done|]. by apply validateMessage_long. }
  pose proof (begin_send_invalid content options w message Hv) as Hbegin.
  split_and!; try exact Hbegin.
  - intros transport. unfold sendMessage, sendMessage_begin, mbind, M_bind.
    by rewrite Hbegin.
  - intros transport. unfold streamMessage, streamMessage_begin, mbind, M_bind.
    by rewrite Hbegin.
Qed.

End Validation.

(* ===================================================================== *)
(** ** Proofs: message updates *)
(* ===================================================================== *)

Lemma patched_length messageId updates ms :
  length (patched messageId updates ms) = length ms.
Proof.
  unfold patched. destruct (list_find _ _) as [[i m]|]; [|done].
  apply length_insert.
Qed.

Lemma patched_ids messageId updates ms :
  Message.p_id updates = None →
  Message.id <$> patched messageId updates ms = Message.id <$> ms.
Proof.
  intros Hid. unfold patched.
  destruct (list_find _ _) as [[i m]|] eqn:Hf; [|done].
  apply list_find_Some in Hf as (Hi & _ & _).
  rewrite list_fmap_insert. apply list_insert_id.
  rewrite list_lookup_fmap, Hi. cbn. unfold Message.spread. cbn. by rewrite Hid.
Qed.

Lemma patched_roles messageId updates ms :
  Message.p_role updates = None →
  Message.role <$> patched messageId updates ms = Message.role <$> ms.
Proof.
  intros Hrole. unfold patched.
  destruct (list_find _ _) as [[i m]|] eqn:Hf; [|done].
  apply list_find_Some in Hf as (Hi & _ & _).
  rewrite list_fmap_insert. apply list_insert_id.
  rewrite list_lookup_fmap, Hi. cbn. unfold Message.spread. cbn. by rewrite Hrole.
Qed.

(** When the last message is the first one carrying [messageId], it is
    the one that [updateMessage] rewrites. *)
Lemma patched_last messageId updates before p :
  Message.id p = messageId →
  messageId ∉ Message.id <$> before →
  patched messageId updates (before ++ [p]) = before ++ [Message.spread p updates].
Proof.
  intros Hp Hfresh. unfold patched.
  destruct (list_find _ _) as [[i m]|] eqn:Hf.
  - apply list_find_Some in Hf as (Hi & Hm & Hbefore).
    destruct (decide (i < length before)) as [Hlt|Hge].
    + exfalso. apply Hfresh. rewrite lookup_app_l in Hi by done.
      apply list_elem_of_fmap. exists m. split; [done|].
      by apply list_elem_of_lookup_2 in Hi.
    + assert (i = length before) as ->.
      { apply lookup_lt_Some in Hi. rewrite length_app in Hi. cbn in Hi. lia. }
      rewrite list_lookup_middle in Hi by done. injection Hi as <-.
      by rewrite insert_app_r_alt, Nat.sub_diag by lia.
  - exfalso. apply list_find_None in Hf. rewrite Forall_app in Hf.
    destruct Hf as [_ Hf]. rewrite Forall_singleton in Hf. by apply Hf.
Qed.

Section StoreRuns.
Context `{Runtime}.

Lemma updateMessage_run messageId updates st k :
  ∃ st',
    updateMessage messageId updates (mkWorld st k) = (tt, mkWorld st' k) ∧
    ChatState.currentSession st'
    = (λ c, ChatSession.with_messages
              (patched messageId updates (ChatSession.messages c)) c)
      <$> ChatState.currentSession st ∧
    ChatState.isLoading st' = ChatState.isLoading st ∧
    ChatState.error st' = ChatState.error st ∧
    ChatState.isConnected st' = ChatState.isConnected st.
Proof.
  unfold updateMessage. run_store. eexists. split; [reflexivity|].
  destruct (ChatState.currentSession st) as [c|] eqn:Hc; cbn; [|by rewrite Hc].
  unfold patched. destruct (list_find _ _) as [[i m]|]; cbn.
  - done.
  - rewrite Hc. by destruct c.
Qed.

Lemma deleteMessage_run messageId st k c :
  ChatState.currentSession st = Some c →
  ∃ st',
    deleteMessage messageId (mkWorld st k) = (tt, mkWorld st' k) ∧
    ChatState.currentSession st'
    = Some (ChatSession.with_messages
              (filter (λ m, Message.id m ≠ messageId) (ChatSession.messages c)) c).
Proof.
  intros Hc. unfold deleteMessage. run_store. rewrite Hc.
  eexists. split; reflexivity.
Qed.

(** [begin_send] on valid content: the query goes out with the two new
    messages already appended. *)
Lemma begin_send_valid content options w :
  validateMessage content = None →
  ∃ st1 c1 sid,
    begin_send content options w
    = (Awaiting (mkChatQuery content (opt_location options) (Some sid))
         (Message.id (placeholder (send_base w))),
       mkWorld st1 (12 + send_base w)) ∧
    ChatState.currentSession st1 = Some c1 ∧
    ChatSession.id c1 = sid ∧
    ChatSession.messages c1
    = prior_messages (state w)
      ++ [user_message content (send_base w); placeholder (send_base w)] ∧
    ChatState.isLoading st1 = true ∧
    ChatState.error st1 = None.
Proof.
  intros Hv. destruct w as [st k]. unfold begin_send, send_base, prior_messages.
  rewrite Hv. unfold addMessage, createSession. run_store.
  destruct (ChatState.currentSession st) as [c|] eqn:Hc; cbn.
  - rewrite Hc. cbn. eexists _, _, _. split; [reflexivity|]. cbn.
    rewrite <- app_assoc. done.
  - eexists _, _, _. split; [reflexivity|]. done.
Qed.

(** [sendMessage] after the request has settled: one [updateMessage] on
    the placeholder's id, whatever the outcome. *)
Lemma sendMessage_resume_run query aid outcome st k c :
  ChatState.currentSession st = Some c →
  ∃ st' k' c',
    sendMessage_resume query aid outcome (mkWorld st k) = (tt, mkWorld st' k') ∧
    ChatState.currentSession st' = Some c' ∧
    ChatSession.id c' = ChatSession.id c ∧
    ChatSession.messages c'
    = patched aid (settled_updates outcome) (ChatSession.messages c) ∧
    ChatState.isLoading st' = false.
Proof.
  intros Hc. unfold sendMessage_resume, updateMessage, patched.
  destruct outcome as [r|e]; run_store; rewrite Hc; cbn.
  - destruct (list_find _ _) as [[i m]|]; cbn; rewrite ?Hc; cbn;
      case_bool_decide; cbn; rewrite ?Hc; cbn;
      eexists _, _, _; (split; [reflexivity|]); done.
  - destruct (list_find _ _) as [[i m]|]; cbn; rewrite ?Hc; cbn;
      eexists _, _, _; (split; [reflexivity|]); done.
Qed.

(** C5, with the domain that the validation guard leaves. For content
    that is not empty or whitespace-only and has at most 10000 characters,
    [sendMessage] reaches the network call with the current session
    extended by exactly two messages: a user message carrying the trimmed
    content, immediately followed by an assistant placeholder with empty
    content and [isLoading = true]. Whatever the outcome of the request,
    the rest of the workflow adds and removes no message: the ids and the
    roles of the session's messages stay as they were at the call. *)
Theorem sendMessage_appends_user_and_placeholder content options w :
  blank content = false →
  (Z.of_nat (length content) ≤ 10000)%Z →
  ∃ query aid w1 c1 u a,
    sendMessage_begin content options w = (Awaiting query aid, w1) ∧
    ChatState.currentSession (state w1) = Some c1 ∧
    ChatSession.messages c1 = prior_messages (state w) ++ [u; a] ∧
    Message.role u = user ∧ Message.content u = trim content ∧
    Message.role a = assistant ∧ Message.content a = [] ∧
    Message.isLoading a = Some true ∧ Message.id a = aid ∧
    (∀ transport,
       sendMessage transport content options w
       = sendMessage_resume query aid (transport query) w1) ∧
    ∀ outcome, ∃ c2,
      ChatState.currentSession (state (exec (sendMessage_resume query aid outcome) w1))
      = Some c2 ∧
      length (ChatSession.messages c2) = length (prior_messages (state w)) + 2 ∧
      Message.id <$> ChatSession.messages c2 = Message.id <$> ChatSession.messages c1 ∧
      Message.role <$> ChatSession.messages c2 = Message.role <$> ChatSession.messages c1.
Proof.
  intros Hb Hlen. pose proof (validateMessage_ok content Hb Hlen) as Hv.
  destruct (begin_send_valid content options w Hv)
    as (st1 & c1 & sid & Hbegin & Hc1 & _ & Hms & _).
  eexists _, _, _, c1, _, _. split; [exact Hbegin|]. cbn [state].
  split_and!; try done.
  { intros transport. unfold sendMessage, sendMessage_begin, mbind, M_bind.
    by rewrite Hbegin. }
  intros outcome.
  destruct (sendMessage_resume_run
              (mkChatQuery content (opt_location options) (Some sid))
              (Message.id (placeholder (send_base w))) outcome st1
              (12 + send_base w) c1 Hc1)
    as (st2 & k2 & c2 & Hrun & Hc2 & _ & Hms2 & _).
  exists c2. unfold exec. rewrite Hrun. cbn [snd state]. split; [done|].
  rewrite Hms2. split_and!.
  - rewrite patched_length, Hms, length_app. done.
  - apply patched_ids. by destruct outcome.
  - apply patched_roles. by destruct outcome.
Qed.

End StoreRuns.

(* ===================================================================== *)
(** ** Proofs: streaming and retry *)
(* ===================================================================== *)

Section Streaming.
Context `{Runtime}.

(** Non-terminal callbacks keep the placeholder last, loading, and
    carrying everything accumulated so far. *)
Lemma stream_callbacks_accumulate aid before cbs :
  aid ∉ Message.id <$> before →
  Forall (λ cb, terminal cb = false) cbs →
  ∀ acc st k c p,
    ChatState.currentSession st = Some c →
    ChatSession.messages c = before ++ [p] →
    Message.id p = aid →
    Message.content p = acc →
    Message.isLoading p = Some true →
    ∃ st' c' p',
      stream_callbacks aid acc cbs (mkWorld st k)
      = (acc ++ concat (chunks cbs), mkWorld st' k) ∧
      ChatState.currentSession st' = Some c' ∧
      ChatSession.messages c' = before ++ [p'] ∧
      Message.id p' = aid ∧
      Message.role p' = Message.role p ∧
      Message.content p' = acc ++ concat (chunks cbs) ∧
      Message.isLoading p' = Some true.
Proof.
  intros Hfresh Hnt.
  induction Hnt as [|cb cbs Hcb _ IH]; intros acc st k c p Hc Hms Hid Hacc Hload.
  - cbn. rewrite app_nil_r. by eexists _, _, _.
  - destruct cb as [chunk|metadata| |]; try done;
      cbn [stream_callbacks stream_callback].
    + destruct (updateMessage_run aid
        (Message.mkPartial None None (Some (acc ++ chunk)) None None (Some true) None)
        st k) as (st1 & Hrun & Hcur & _).
      rewrite Hc in Hcur. cbn in Hcur. rewrite Hms, patched_last in Hcur by done.
      edestruct (IH (acc ++ chunk) st1 k) as (st' & c' & p' & Hrun' & ? & ? & ? & ? & ? & ?);
        [exact Hcur|reflexivity|exact Hid|reflexivity|reflexivity|].
      exists st', c', p'. unfold mbind, M_bind, mret, M_ret. rewrite Hrun. cbn.
      unfold mbind, M_bind, mret, M_ret in Hrun'. rewrite Hrun'.
      cbn [chunks omap]. cbn [concat]. rewrite <- !app_assoc in *. done.
    + destruct (updateMessage_run aid
        (Message.mkPartial None None None None (Some metadata) None None)
        st k) as (st1 & Hrun & Hcur & _).
      rewrite Hc in Hcur. cbn in Hcur. rewrite Hms, patched_last in Hcur by done.
      edestruct (IH acc st1 k) as (st' & c' & p' & Hrun' & ? & ? & ? & ? & ? & ?);
        [exact Hcur|reflexivity|exact Hid|exact Hacc|exact Hload|].
      exists st', c', p'. unfold mbind, M_bind, mret, M_ret. rewrite Hrun. cbn.
      unfold mbind, M_bind, mret, M_ret in Hrun'. rewrite Hrun'. done.
Qed.

(** C6. [streamMessage] is called with valid content, and the id drawn
    for the placeholder is carried by no other message of the session.
    Then after any sequence of [onChunk] and [onMetadata] invocations
    (no terminal callback yet) the last message of the session is the
    assistant placeholder, its content is the concatenation of the chunk
    texts received so far, and its [isLoading] flag is still true. *)
Theorem streamed_chunks_accumulate content options w cbs :
  blank content = false →
  (Z.of_nat (length content) ≤ 10000)%Z →
  Message.id (placeholder (send_base w))
    ∉ Message.id <$> (prior_messages (state w) ++ [user_message content (send_base w)]) →
  Forall (λ cb, terminal cb = false) cbs →
  ∃ query aid w1 c p,
    streamMessage_begin content options w = (Awaiting query aid, w1) ∧
    ChatState.currentSession (state (exec (stream_callbacks aid [] cbs) w1)) = Some c ∧
    last (ChatSession.messages c) = Some p ∧
    Message.id p = aid ∧
    Message.role p = assistant ∧
    Message.content p = concat (chunks cbs) ∧
    Message.isLoading p = Some true.
Proof.
  intros Hb Hlen Hfresh Hnt. pose proof (validateMessage_ok content Hb Hlen) as Hv.
  destruct (begin_send_valid content options w Hv)
    as (st1 & c1 & sid & Hbegin & Hc1 & _ & Hms & _).
  change [user_message content (send_base w); placeholder (send_base w)]
    with ([user_message content (send_base w)] ++ [placeholder (send_base w)]) in Hms.
  rewrite app_assoc in Hms.
  destruct (stream_callbacks_accumulate _ _ cbs Hfresh Hnt [] st1
              (12 + send_base w) c1 _ Hc1 Hms eq_refl eq_refl eq_refl)
    as (st' & c' & p' & Hrun & Hc' & Hms' & ? & ? & ? & ?).
  eexists _, _, _, c', p'. split; [exact Hbegin|].
  unfold exec. rewrite Hrun. cbn [snd state]. split; [done|].
  rewrite Hms', last_snoc. done.
Qed.

(** [retryLastMessage] on a user message followed by a failed assistant
    message: the assistant message is deleted, then [sendMessage] starts
    on the user message's content. *)
Lemma retry_deletes_then_sends w c u a :
  ChatState.currentSession (state w) = Some c →
  ChatSession.messages c = [u; a] →
  Message.role u = user →
  Message.role a = assistant →
  str_truthy (Message.error a) = true →
  Message.id u ≠ Message.id a →
  ∃ st1,
    ChatState.currentSession st1 = Some (ChatSession.with_messages [u] c) ∧
    retryLastMessage_begin w
    = sendMessage_begin (Message.content u) no_options (mkWorld st1 (draws w)).
Proof.
  intros Hc Hms Hu Ha Herr Hne. destruct w as [st k]. cbn in *.
  destruct (deleteMessage_run (Message.id a) st k c Hc) as (st1 & Hdel & Hc1).
  exists st1. split.
  - rewrite Hc1, Hms. rewrite filter_cons_True by done.
    rewrite filter_cons_False by (intros Hn; by apply Hn). done.
  - unfold retryLastMessage_begin. unfold mbind at 1, M_bind at 1, get at 1. cbn.
    rewrite Hc, Hms. cbn.
    destruct (decide (Message.role a = user)) as [Hau|_]; [congruence|].
    destruct (decide (Message.role u = user)) as [_|Hnu]; [|done]. cbn.
    rewrite (bool_decide_eq_true_2 _ Ha), Herr. cbn.
    unfold mbind, M_bind. by rewrite Hdel.
Qed.

(** C1, as the code has it. The current session holds a user message
    followed by an assistant message whose [error] is a non-empty string;
    the two have different ids and the user content passes validation.
    Then [retryLastMessage] deletes the assistant message and calls
    [sendMessage] on the user content, which appends a second user
    message (same content, trimmed) and a new placeholder: when the
    request goes out the session is [original user; new user; new
    assistant], and once it has settled, whatever the outcome, the
    session still holds these two user messages and one assistant
    message. *)
Theorem retry_resends_after_user_message w c u a :
  ChatState.currentSession (state w) = Some c →
  ChatSession.messages c = [u; a] →
  Message.role u = user →
  Message.role a = assistant →
  str_truthy (Message.error a) = true →
  Message.id u ≠ Message.id a →
  blank (Message.content u) = false →
  (Z.of_nat (length (Message.content u)) ≤ 10000)%Z →
  ∃ query aid w1 c1 u' a',
    retryLastMessage_begin w = (Awaiting query aid, w1) ∧
    text query = Message.content u ∧
    ChatState.currentSession (state w1) = Some c1 ∧
    ChatSession.messages c1 = [u; u'; a'] ∧
    Message.role u' = user ∧ Message.content u' = trim (Message.content u) ∧
    Message.role a' = assistant ∧ Message.content a' = [] ∧
    Message.isLoading a' = Some true ∧ Message.error a' = None ∧
    Message.id a' = aid ∧
    ∀ outcome, ∃ c2,
      ChatState.currentSession (state (exec (sendMessage_resume query aid outcome) w1))
      = Some c2 ∧
      Message.role <$> ChatSession.messages c2 = [user; user; assistant].
Proof.
  intros Hc Hms Hu Ha Herr Hne Hb Hlen.
  pose proof (validateMessage_ok _ Hb Hlen) as Hv.
  destruct (retry_deletes_then_sends w c u a Hc Hms Hu Ha Herr Hne) as (st0 & Hc0 & ->).
  destruct (begin_send_valid (Message.content u) no_options (mkWorld st0 (draws w)) Hv)
    as (st1 & c1 & sid & Hbegin & Hc1 & _ & Hms1 & _).
  unfold prior_messages in Hms1. cbn [state] in Hms1. rewrite Hc0 in Hms1. cbn in Hms1.
  eexists _, _, _, c1, _, _. split; [exact Hbegin|]. cbn [state text].
  split_and!; try done.
  intros outcome.
  edestruct sendMessage_resume_run as (st2 & k2 & c2 & Hrun & Hc2 & _ & Hms2 & _);
    [exact Hc1|].
  exists c2. unfold exec. rewrite Hrun. cbn [snd state]. split; [done|].
  rewrite Hms2, patched_roles by (by destruct outcome).
  rewrite Hms1. cbn. by rewrite Hu.
Qed.

End Streaming.

(* ===================================================================== *)
(** ** Proofs: sessions, export and import *)
(* ===================================================================== *)

Lemma filter_id_noop (sessionId : JsString) (l : list ChatSession.t) :
  sessionId ∉ ChatSession.id <$> l →
  filter (λ s, ChatSession.id s ≠ sessionId) l = l.
Proof.
  induction l as [|s l IH]; [done|]. rewrite fmap_cons.
  intros [Hne Hn]%not_elem_of_cons.
  rewrite filter_cons_True by done. by rewrite IH.
Qed.

Lemma filter_id_gone (sessionId : JsString) (l : list ChatSession.t) :
  sessionId ∉ ChatSession.id <$> filter (λ s, ChatSession.id s ≠ sessionId) l.
Proof.
  intros (s & -> & Hs)%list_elem_of_fmap.
  by apply list_elem_of_filter in Hs as [? _].
Qed.

Lemma import_guard_None parsed :
  payload_messages parsed = None → import_guard parsed = None.
Proof.
  unfold payload_messages, import_guard. destruct parsed; try done.
  destruct (prop (js "session") (JObj props)) as [session|]; [|done].
  destruct session; try done.
  destruct (prop (js "messages") (JObj props0)) as [[]|]; cbn;
    rewrite ?orb_true_r; done.
Qed.





Section Sessions.
Context `{Runtime}.

(** C9. [deleteSession] is idempotent on every state. Deleting an id
    that no entry of [sessions] carries changes nothing (for a state whose
    current session is one of its sessions). Deleting the id of the
    current session clears it. In all cases the id is gone from
    [sessions] afterwards. *)
Theorem deleteSession_idempotent sessionId w :
  let w1 := exec (deleteSession sessionId) w in
  exec (deleteSession sessionId) w1 = w1
  ∧ (sessionId ∉ ChatSession.id <$> ChatState.sessions (state w) →
     current_in_sessions (state w) → w1 = w)
  ∧ (ChatSession.id <$> ChatState.currentSession (state w) = Some sessionId →
     ChatState.currentSession (state w1) = None)
  ∧ sessionId ∉ ChatSession.id <$> ChatState.sessions (state w1).
Proof.
  destruct w as [[current sessions isLoading error isConnected] k].
  unfold deleteSession, current_in_sessions. run_store.
  repeat split.
  - destruct current as [c|]; cbn; [case_bool_decide; cbn|];
      rewrite ?bool_decide_eq_false_2 by done;
      by rewrite filter_id_noop by apply filter_id_gone.
  - intros Habsent Hin. rewrite filter_id_noop by done.
    destruct current as [c|]; cbn in *; [|done].
    rewrite bool_decide_eq_false_2; [done|]. by intros <-.
  - destruct current as [c|]; cbn; [|done]. intros [= ->].
    by rewrite bool_decide_eq_true_2.
  - destruct current as [c|]; cbn; [case_bool_decide; cbn|]; apply filter_id_gone.
Qed.


(** C10. A payload that is not valid JSON, or whose [session.messages]
    is absent or not a list, makes [importSession] return [false]; the
    store's error becomes the invalid-format text and nothing else
    changes: [sessions], [currentSession] and the flags are as before,
    and neither an id nor a timestamp is drawn. *)
Theorem malformed_import_rejected data w :
  JSON_parse data ≫= payload_messages = None →
  importSession data w
  = Some (false,
          mkWorld (ChatState.with_error (Some (js "Invalid session data format"))
                     (state w))
            (draws w)).
Proof.
  intros Hbad. unfold importSession.
  replace (JSON_parse data ≫= import_guard) with (@None Json); [done|].
  destruct (JSON_parse data) as [parsed|]; [|done]. cbn in *.
  symmetry. by apply import_guard_None.
Qed.

End Sessions.

(* ===================================================================== *)
(** ** Proofs: the stream reader *)
(* ===================================================================== *)

Section Reader.
Context `{Runtime}.

Lemma process_line_spec line :
  match process_line line with
  | (cbs, true) => ∃ t, cbs = [t] ∧ terminal t = true
  | (cbs, false) => Forall (λ cb, terminal cb = false) cbs
  end.
Proof.
  unfold process_line.
  destruct (startsWith _ _); [|by constructor].
  case_bool_decide; [by eexists|].
  destruct (JSON_parse _) as [parsed|]; [|by constructor].
  destruct parsed; try by constructor.
  all: destruct (has_type (js "error") _); [by eexists|].
  all: apply Forall_app; split.
  all: destruct (has_type _ _); try by constructor.
  all: destruct (prop _ _) as [v|]; try by constructor.
  all: destruct (truthy v); by repeat constructor.
Qed.

Lemma process_lines_spec lines :
  match process_lines lines with
  | (cbs, true) => ends_once cbs
  | (cbs, false) => Forall (λ cb, terminal cb = false) cbs
  end.
Proof.
  induction lines as [|line lines IH]; cbn; [by constructor|].
  pose proof (process_line_spec line) as Hl.
  destruct (process_line line) as [cbs [|]].
  - destruct Hl as (t & -> & Ht). exists [], t. by repeat split.
  - destruct (process_lines lines) as [cbs' [|]].
    + destruct IH as (before & t & -> & Ht & Hb).
      exists (cbs ++ before), t. rewrite app_assoc. repeat split; [done|].
      by apply Forall_app.
    + by apply Forall_app.
Qed.

Lemma read_loop_ends_once reads ending : ends_once (read_loop reads ending).
Proof.
  induction reads as [|chunk reads IH]; cbn.
  - destruct ending; by eexists [], _.
  - pose proof (process_lines_spec (split_on 10 chunk)) as Hl.
    destruct (process_lines _) as [cbs [|]]; [done|].
    destruct IH as (before & t & -> & Ht & Hb).
    exists (cbs ++ before), t. rewrite app_assoc. repeat split; [done|].
    by apply Forall_app.
Qed.

(** C7. Whatever the request and the reader deliver, the callbacks that
    one call of [streamChatMessage] invokes end with exactly one terminal
    callback ([onError] or [onComplete]); every callback before it is an
    [onChunk] or an [onMetadata], and none follows it. *)
Theorem streamChatMessage_ends_once (r : StreamResponse) :
  ends_once (streamChatMessage r).
Proof.
  destruct r as [e| |reads ending]; cbn.
  - by eexists [], _.
  - by eexists [], _.
  - apply read_loop_ends_once.
Qed.

End Reader.

(* ===================================================================== *)
(** ** Proofs: the hook *)
(* ===================================================================== *)

(** A failed probe schedules one timeout of 5000 ms and keeps every
    timeout that was pending. *)
Lemma failed_probe_adds_timer e h :
  timeouts (checkConnection (Rejected e) h)
  = timeouts h ++ [mkTimer (next_handle h) 5000].
Proof. reflexivity. Qed.

(** C2, on the code. Two probes fail in a row, the second before the
    first reconnect timeout fires: both timeouts are pending, the ref
    remembers only the second, and the cleanup leaves the first one
    armed. *)
Theorem two_failed_probes_two_timers e1 e2 :
  let h := checkConnection (Rejected e2) (checkConnection (Rejected e1) hook_initial) in
  timeouts h = [mkTimer 0 5000; mkTimer 1 5000]
  ∧ reconnectTimeoutRef h = Some 1
  ∧ timeouts (cleanup h) = [mkTimer 0 5000].
Proof. repeat split. Qed.

(** Every call makes exactly one attempt: the branch that would retry
    tests the same constant [isConnected] that was just found false. *)
Lemma attemptSend_single isConnected send health fuel attempt h :
  fuel ≠ 0 →
  ∃ r steps h',
    attemptSend isConnected send health fuel attempt h = Some (r, steps, h')
    ∧ attempts steps = 1
    ∧ r = match send attempt with
          | Resolved _ => Resolved tt
          | Rejected e => Rejected e
          end.
Proof.
  destruct fuel as [|fuel]; [done|]. intros _. cbn.
  destruct (send attempt) as [[]|e]; [eexists _, _, _; split_and!; reflexivity|].
  destruct isConnected; cbn; rewrite ?andb_false_r, ?andb_true_r;
    [|destruct (_ <=? _)]; eexists _, _, _; split_and!; reflexivity.
Qed.

(** C3, on the code. A probe has failed, so the hook renders while the
    store says disconnected. The send made from that render fails, and
    the probe made after the 2000 ms wait succeeds, so the store now says
    connected: the failure is rethrown without a second attempt. *)
Theorem reconnected_send_not_retried e0 e :
  let rendered := checkConnection (Rejected e0) hook_initial in
  ∃ h,
    rendered_sendMessageWithRetry rendered (λ _, Rejected e) (λ _, Resolved tt) rendered
    = Some (Rejected e, [Send; Wait 2000; Probe], h)
    ∧ store_isConnected rendered = false
    ∧ store_isConnected h = true.
Proof. eexists. split_and!; reflexivity. Qed.

(** Under any interleaving of probes, timeouts and unmount, pending
    timeouts stay well formed; nothing bounds their number. *)
Lemma clearTimeout_wf k h : timers_wf h → timers_wf (clearTimeout k h).
Proof.
  intros [Hall Hnd]. split; cbn.
  - apply Forall_forall. intros t [_ Hin]%list_elem_of_filter.
    rewrite Forall_forall in Hall. by apply Hall.
  - clear Hall. induction (timeouts h) as [|t ts IH]; [done|].
    rewrite fmap_cons in Hnd. apply NoDup_cons in Hnd as [Hnotin Hnd].
    rewrite filter_cons. case_decide; [|by apply IH].
    rewrite fmap_cons. apply NoDup_cons. split; [|by apply IH].
    intros (t' & Heq & Hin)%list_elem_of_fmap.
    apply list_elem_of_filter in Hin as [_ Hin].
    apply Hnotin, list_elem_of_fmap. by exists t'.
Qed.

Lemma checkConnection_wf probe h : timers_wf h → timers_wf (checkConnection probe h).
Proof.
  intros [Hall Hnd]. destruct probe as [[]|e]; [done|]. split; cbn.
  - apply Forall_app. split.
    + eapply Forall_impl; [exact Hall|]. cbn. intros t [? ?]. split; [done|lia].
    + apply Forall_singleton. cbn. split; [done|lia].
  - rewrite fmap_app. apply NoDup_app. split_and!; [done| |apply NoDup_singleton].
    intros k (t & -> & Hin)%list_elem_of_fmap. cbn.
    rewrite Forall_forall in Hall. destruct (Hall t Hin) as [_ Hlt].
    rewrite list_elem_of_singleton. lia.
Qed.

Lemma hook_step_wf h ev : timers_wf h → timers_wf (hook_step h ev).
Proof.
  intros Hwf. destruct ev as [probe|k probe|]; cbn.
  - by apply checkConnection_wf.
  - unfold fire. case_bool_decide; [|done].
    by apply checkConnection_wf, clearTimeout_wf.
  - unfold cleanup. destruct (reconnectTimeoutRef h); [|done].
    by apply clearTimeout_wf.
Qed.

Lemma hook_run_wf evs : timers_wf (hook_run evs).
Proof.
  unfold hook_run. induction evs as [|ev evs IH] using rev_ind.
  - split; constructor.
  - rewrite foldl_app. cbn. by apply hook_step_wf.
Qed.

Lemma failed_probes_pile_up e n :
  length (timeouts (hook_run (replicate n (ProbeSettles (Rejected e))))) = n.
Proof.
  unfold hook_run. induction n as [|n IH]; [done|].
  rewrite replicate_S_end, foldl_app. cbn. rewrite length_app, IH. cbn. lia.
Qed.

(* ===================================================================== *)
(** ** Proofs: the current session is one of the sessions *)
(* ===================================================================== *)

Lemma preserves_ret {A} I (a : A) : preserves I (mret a).
Proof. by intros w. Qed.

Lemma preserves_bind {A B} I (m : M A) (f : A → M B) :
  preserves I m → (∀ a, preserves I (f a)) → preserves I (m ≫= f).
Proof.
  intros Hm Hf w Hw. unfold mbind, M_bind.
  specialize (Hm w Hw). destruct (m w) as [a w']. by apply Hf.
Qed.

Lemma preserves_get I : preserves I get.
Proof. by intros w. Qed.

Lemma preserves_set I recipe :
  (∀ st, I st → I (recipe st)) → preserves I (set recipe).
Proof. intros Hr w Hw. by apply Hr. Qed.

Lemma updateSessionInArray_ids sessions sessionId updates :
  ChatSession.id <$> updateSessionInArray sessions sessionId updates
  = ChatSession.id <$> sessions.
Proof.
  unfold updateSessionInArray.
  destruct (list_find _ _) as [[i s]|] eqn:Hf; [|done].
  apply list_find_Some in Hf as (Hi & _ & _).
  rewrite list_fmap_insert. apply list_insert_id.
  by rewrite list_lookup_fmap, Hi.
Qed.

Create HintDb preserves.

Ltac preserve :=
  repeat first
    [ solve [auto with preserves]
    | apply preserves_bind; [|intros ?]
    | match goal with
      | |- preserves _ (match ?x with _ => _ end) => destruct x
      end ].

Section Invariant.
Context `{Runtime}.

Lemma preserves_generateId I : preserves I generateId.
Proof. by intros w. Qed.

Lemma preserves_Date_now I : preserves I Date_now.
Proof. by intros w. Qed.

Lemma preserves_with_error e :
  preserves current_in_sessions (set (ChatState.with_error e)).
Proof. by apply preserves_set. Qed.

Lemma preserves_with_isLoading b :
  preserves current_in_sessions (set (ChatState.with_isLoading b)).
Proof. by apply preserves_set. Qed.

Lemma preserves_with_isConnected b :
  preserves current_in_sessions (set (ChatState.with_isConnected b)).
Proof. by apply preserves_set. Qed.

Lemma preserves_error_loading b e :
  preserves current_in_sessions
    (set (λ st, ChatState.with_error e (ChatState.with_isLoading b st))).
Proof. by apply preserves_set. Qed.

Lemma preserves_loading_error b e :
  preserves current_in_sessions
    (set (λ st, ChatState.with_isLoading b (ChatState.with_error e st))).
Proof. by apply preserves_set. Qed.

Lemma createSession_invariant : preserves current_in_sessions createSession.
Proof.
  intros w _. unfold createSession, current_in_sessions. run_store.
  apply list_elem_of_here.
Qed.

Lemma loadSession_invariant sessionId :
  preserves current_in_sessions (loadSession sessionId).
Proof.
  intros [st k]. unfold loadSession, current_in_sessions.
  case_bool_decide; run_store; [done|].
  destruct (list_find _ _) as [[i s]|] eqn:Hf; cbn; [|done].
  intros _. apply list_find_Some in Hf as (Hi & _ & _).
  apply list_elem_of_fmap. exists s. split; [done|]. by eapply list_elem_of_lookup_2.
Qed.

Lemma clearCurrentSession_invariant : preserves current_in_sessions clearCurrentSession.
Proof. by apply preserves_set. Qed.

Lemma clearAllSessions_invariant : preserves current_in_sessions clearAllSessions.
Proof. by apply preserves_set. Qed.

Lemma deleteSession_invariant sessionId :
  preserves current_in_sessions (deleteSession sessionId).
Proof.
  apply preserves_set. intros [current sessions isLoading error isConnected].
  unfold current_in_sessions. cbn.
  destruct current as [c|]; cbn; [|done].
  case_bool_decide; cbn; [done|].
  intros (s & Hid & Hin)%list_elem_of_fmap.
  apply list_elem_of_fmap. exists s. split; [done|].
  apply list_elem_of_filter. split; [congruence|done].
Qed.

Lemma addMessage_invariant d : preserves current_in_sessions (addMessage d).
Proof.
  intros [st k]. unfold addMessage, current_in_sessions. run_store.
  destruct (ChatState.currentSession st) as [c|] eqn:Hc; cbn; [|by rewrite ?Hc].
  by rewrite updateSessionInArray_ids.
Qed.

Lemma updateMessage_invariant messageId updates :
  preserves current_in_sessions (updateMessage messageId updates).
Proof.
  intros [st k]. unfold updateMessage, current_in_sessions. run_store.
  destruct (ChatState.currentSession st) as [c|] eqn:Hc; cbn; [|by rewrite ?Hc].
  destruct (list_find _ _) as [[i m]|]; cbn; [|by rewrite Hc].
  by rewrite updateSessionInArray_ids.
Qed.

Lemma deleteMessage_invariant messageId :
  preserves current_in_sessions (deleteMessage messageId).
Proof.
  intros [st k]. unfold deleteMessage, current_in_sessions. run_store.
  destruct (ChatState.currentSession st) as [c|] eqn:Hc; cbn; [|by rewrite ?Hc].
  by rewrite updateSessionInArray_ids.
Qed.

#[local] Hint Resolve preserves_ret preserves_get preserves_generateId
  preserves_Date_now preserves_with_error preserves_with_isLoading
  preserves_with_isConnected preserves_error_loading preserves_loading_error
  createSession_invariant loadSession_invariant clearCurrentSession_invariant
  clearAllSessions_invariant deleteSession_invariant addMessage_invariant
  updateMessage_invariant deleteMessage_invariant : preserves.

Lemma begin_send_invariant content options :
  preserves current_in_sessions (begin_send content options).
Proof. unfold begin_send. preserve. Qed.

Lemma sendMessage_resume_invariant query aid outcome :
  preserves current_in_sessions (sendMessage_resume query aid outcome).
Proof.
  unfold sendMessage_resume. preserve.
  apply preserves_set. intros [current sessions isLoading error isConnected].
  unfold current_in_sessions. cbn. destruct current as [c|]; cbn; [|done].
  by rewrite updateSessionInArray_ids.
Qed.

#[local] Hint Resolve begin_send_invariant sendMessage_resume_invariant : preserves.

Lemma sendMessage_invariant transport content options :
  preserves current_in_sessions (sendMessage transport content options).
Proof. unfold sendMessage, sendMessage_begin. preserve. Qed.

Lemma stream_callback_invariant aid acc cb :
  preserves current_in_sessions (stream_callback aid acc cb).
Proof. unfold stream_callback. preserve. Qed.

Lemma stream_callbacks_invariant aid cbs acc :
  preserves current_in_sessions (stream_callbacks aid acc cbs).
Proof.
  revert acc. induction cbs as [|cb cbs IH]; intros acc; cbn; [apply preserves_ret|].
  apply preserves_bind; [apply stream_callback_invariant|done].
Qed.

Lemma streamMessage_catch_invariant aid e :
  preserves current_in_sessions (streamMessage_catch aid e).
Proof. unfold streamMessage_catch. preserve. Qed.

#[local] Hint Resolve stream_callback_invariant stream_callbacks_invariant
  streamMessage_catch_invariant : preserves.

Lemma streamMessage_invariant transport content options :
  preserves current_in_sessions (streamMessage transport content options).
Proof.
  unfold streamMessage, streamMessage_begin, streamMessage_resume. preserve.
Qed.

Lemma retryLastMessage_begin_invariant :
  preserves current_in_sessions retryLastMessage_begin.
Proof. unfold retryLastMessage_begin, sendMessage_begin. preserve. Qed.

Lemma exportSession_invariant : preserves current_in_sessions exportSession.
Proof. unfold exportSession. preserve. Qed.

#[local] Hint Resolve retryLastMessage_begin_invariant exportSession_invariant
  : preserves.

Lemma importSession_invariant data w b w' :
  current_in_sessions (state w) →
  importSession data w = Some (b, w') →
  current_in_sessions (state w').
Proof.
  destruct w as [st k]. unfold importSession, current_in_sessions.
  destruct (JSON_parse data ≫= import_guard) as [session|]; cbn.
  - destruct (imported_props session) as [[[ms ttl] loc]|]; cbn; [|done].
    intros _ [= <- <-]. cbn. apply list_elem_of_here.
  - by intros ? [= <- <-].
Qed.

Lemma segment_invariant m : segment m → preserves current_in_sessions m.
Proof.
  destruct 1; unfold setLoading, setError, setConnected, clearError; preserve.
Qed.

(** In every reachable state the current session, if any, is an entry of
    [sessions]. *)
Lemma reachable_current_in_sessions w :
  reachable w → current_in_sessions (state w).
Proof.
  induction 1 as [sessions k|w m _ IH Hm|w data b w' _ IH Himport].
  - done.
  - by apply segment_invariant.
  - by eapply importSession_invariant.
Qed.

End Invariant.

(* ===================================================================== *)
(** ** The statements at concrete inputs *)
(* ===================================================================== *)

Lemma invalid_content_witness :
  (blank long_content = true ∨ (10000 < Z.of_nat (length long_content))%Z)
  ∧ @sendMessage_begin reference_runtime long_content no_options fresh_world
    = (Returned,
       mkWorld (ChatState.with_error
                  (Some (js "Message too long (max 10000 characters)"))
                  ChatState.initial) 0).
Proof.
  split; [right; reflexivity|].
  apply (@invalid_content_only_sets_error reference_runtime
           long_content no_options fresh_world).
  right. reflexivity.
Defined.

Example blank_content_rejected :
  @sendMessage reference_runtime answering (js "   ") no_options fresh_world
  = (tt, mkWorld (ChatState.with_error (Some (js "Message cannot be empty"))
                    ChatState.initial) 0).
Proof. by vm_compute. Qed.

Lemma sendMessage_appends_witness :
  blank (js " Hello ") = false
  ∧ (Z.of_nat (length (js " Hello ")) ≤ 10000)%Z
  ∧ ∃ query aid w1 c1 u a,
      @sendMessage_begin reference_runtime (js " Hello ") no_options fresh_world
      = (Awaiting query aid, w1) ∧
      ChatState.currentSession (state w1) = Some c1 ∧
      ChatSession.messages c1 = [u; a] ∧
      Message.content u = js "Hello" ∧
      Message.isLoading a = Some true.
Proof.
  split_and!; [by vm_compute..|].
  destruct (@sendMessage_appends_user_and_placeholder reference_runtime
              (js " Hello ") no_options fresh_world)
    as (query & aid & w1 & c1 & u & a & Hbegin & Hc1 & Hms & _ & Hu & _ & _ & Ha & _);
    [by vm_compute..|].
  exists query, aid, w1, c1, u, a. split_and!; done.
Defined.

(** C5, as stated, fails on content that is not empty but consists of
    white space: a single space is rejected by [validateMessage] and no
    message is appended. *)
Lemma whitespace_content_appends_nothing :
  let content := js " " in
  content ≠ []
  ∧ (Z.of_nat (length content) ≤ 10000)%Z
  ∧ ∀ transport,
      ¬ ∃ u a,
          prior_messages
            (state (exec (@sendMessage reference_runtime transport content no_options)
                      failed_world))
          = prior_messages (state failed_world) ++ [u; a].
Proof.
  split_and!; [by vm_compute..|].
  intros transport (u & a & Heq). apply (f_equal length) in Heq.
  vm_compute in Heq. discriminate.
Qed.

Lemma streamed_hello_witness :
  ∃ query aid w1 c p,
    @streamMessage_begin reference_runtime (js "hi") no_options fresh_world
    = (Awaiting query aid, w1) ∧
    ChatState.currentSession
      (state (exec (stream_callbacks aid [] [onChunk (js "Hel"); onChunk (js "lo")]) w1))
    = Some c ∧
    last (ChatSession.messages c) = Some p ∧
    Message.id p = aid ∧
    Message.role p = assistant ∧
    Message.content p = js "Hello" ∧
    Message.isLoading p = Some true.
Proof.
  apply (@streamed_chunks_accumulate reference_runtime (js "hi") no_options fresh_world
           [onChunk (js "Hel"); onChunk (js "lo")]).
  - by vm_compute.
  - by vm_compute.
  - apply (bool_decide_unpack _). by vm_compute.
  - by repeat constructor.
Defined.

Example failed_world_session :
  ChatState.currentSession (state failed_world) = Some failed_session
  ∧ ChatState.error (state failed_world)
    = Some (js "Network error: Unable to connect to the server")
  ∧ ChatState.isLoading (state failed_world) = false.
Proof. by vm_compute. Qed.

(** C1, as stated, fails: after the retry the session of [failed_world]
    holds two user messages. *)
Lemma retry_leaves_two_user_messages :
  ¬ one_user_one_assistant
      (prior_messages
         (state (exec (@retryLastMessage reference_runtime answering) failed_world))).
Proof. intros [Hu _]. vm_compute in Hu. discriminate. Qed.

Lemma retry_witness :
  ∃ c2,
    ChatState.currentSession
      (state (exec (@retryLastMessage reference_runtime answering) failed_world))
    = Some c2 ∧
    Message.role <$> ChatSession.messages c2 = [user; user; assistant].
Proof.
  destruct (@retry_resends_after_user_message reference_runtime failed_world
              failed_session failed_user failed_assistant)
    as (query & aid & w1 & c1 & u' & a' & Hbegin
        & _ & _ & _ & _ & _ & _ & _ & _ & _ & _ & Hafter);
    [reflexivity..| by vm_compute | by vm_compute | by vm_compute |].
  destruct (Hafter (answering query)) as (c2 & Hc2 & Hroles).
  exists c2. split; [|exact Hroles].
  unfold retryLastMessage, exec, mbind, M_bind. cbv beta. rewrite Hbegin. exact Hc2.
Defined.



Lemma deleteSession_witness :
  exec (deleteSession (js "id-9")) failed_world = failed_world
  ∧ ChatState.currentSession (state (exec (deleteSession (js "id-0")) failed_world))
    = None
  ∧ exec (deleteSession (js "id-0")) (exec (deleteSession (js "id-0")) failed_world)
    = exec (deleteSession (js "id-0")) failed_world.
Proof.
  split_and!.
  - apply (deleteSession_idempotent (js "id-9") failed_world).
    + apply (bool_decide_unpack _). by vm_compute.
    + apply (bool_decide_unpack _). by vm_compute.
  - by apply (deleteSession_idempotent (js "id-0") failed_world).
  - apply (deleteSession_idempotent (js "id-0") failed_world).
Defined.

Lemma malformed_import_witness :
  @JSON_parse reference_runtime (js "not json") ≫= payload_messages = None
  ∧ @importSession reference_runtime (js "not json") failed_world
    = Some (false,
            mkWorld (ChatState.with_error (Some (js "Invalid session data format"))
                       (state failed_world)) (draws failed_world)).
Proof.
  split; [by vm_compute|].
  apply (@malformed_import_rejected reference_runtime (js "not json") failed_world).
  by vm_compute.
Defined.

(** A payload that parses but whose [session.messages] is a number. *)
Example messages_not_a_list_rejected :
  let data := RefJSON.stringify
                (JObj [(js "session", JObj [(js "messages", JNum (number_of_Z 5))])]) in
  @importSession reference_runtime data failed_world
  = Some (false,
          mkWorld (ChatState.with_error (Some (js "Invalid session data format"))
                     (state failed_world)) (draws failed_world)).
Proof. by vm_compute. Qed.

(** The title derived from a first message of more than six words. *)
Example title_of_long_first_message :
  generateSessionTitle (js "How do I get my birth certificate reissued quickly")
  = js "How do I get my birth...".
Proof. by vm_compute. Qed.

(** A record line as the server sends it, read by the reference parser. *)
Example chunk_line_invokes_onChunk :
  let q s := [34%N] ++ js s ++ [34%N] in
  @process_line reference_runtime
    (js "data: {" ++ q "type" ++ js ":" ++ q "chunk" ++ js ","
     ++ q "content" ++ js ":" ++ q "Hel" ++ js "}")
  = ([onChunk (JStr (js "Hel"))], false).
Proof. by vm_compute. Qed.

Example done_line_completes :
  @streamChatMessage reference_runtime
    (Body [js "data: [DONE]" ++ [10%N] ++ js "data: ignored"] EndOfStream)
  = [onComplete].
Proof. by vm_compute. Qed.

(** Two chunk records and the end of the body, from the bytes on the
    wire to the store. *)
Example streamed_body_end_to_end :
  let q s := [34%N] ++ js s ++ [34%N] in
  let record text :=
    js "data: {" ++ q "type" ++ js ":" ++ q "chunk" ++ js ","
    ++ q "content" ++ js ":" ++ q text ++ js "}" ++ [10%N] in
  let cbs := @streamChatMessage reference_runtime
               (Body [record "Hel"; record "lo"] EndOfStream) in
  mapM typed cbs = Some [onChunk (js "Hel"); onChunk (js "lo"); onComplete]
  ∧ let w := exec (@streamMessage reference_runtime
                     (λ _, (default [] (mapM typed cbs), Resolved tt))
                     (js "hi") no_options) fresh_world in
    (Message.content <$> prior_messages (state w) = [js "hi"; js "Hello"])
    ∧ (Message.isLoading <$> prior_messages (state w) = [None; Some false])
    ∧ ChatState.isLoading (state w) = false.
Proof. by vm_compute. Qed.

(* ===================================================================== *)
(** ** Proofs: trimming and titles *)
(* ===================================================================== *)

Lemma trimStart_idem s : trimStart (trimStart s) = trimStart s.
Proof.
  destruct (trimStart s) as [|c s'] eqn:E; [done|].
  apply trimStart_head in E. simpl. by rewrite E.
Qed.

Lemma trimStart_length s : length (trimStart s) ≤ length s.
Proof.
  induction s as [|c s IH]; simpl; [done|]. destruct (isWhiteSpace c); simpl; lia.
Qed.

Lemma trimStart_snoc l c :
  isWhiteSpace c = false → trimStart (l ++ [c]) = trimStart l ++ [c].
Proof.
  intros Hc. induction l as [|d l IH]; simpl; [by rewrite Hc|].
  by destruct (isWhiteSpace d).
Qed.

Lemma trimEnd_cons c s :
  isWhiteSpace c = false → trimEnd (c :: s) = c :: trimEnd s.
Proof.
  intros Hc. unfold trimEnd. rewrite reverse_cons, trimStart_snoc by done.
  by rewrite reverse_snoc.
Qed.

Lemma trimEnd_idem s : trimEnd (trimEnd s) = trimEnd s.
Proof. unfold trimEnd. by rewrite reverse_involutive, trimStart_idem. Qed.

Lemma trimEnd_length s : length (trimEnd s) ≤ length s.
Proof.
  unfold trimEnd. rewrite length_reverse.
  etrans; [apply trimStart_length|]. by rewrite length_reverse.
Qed.

Lemma trim_idem s : trim (trim s) = trim s.
Proof.
  unfold trim. destruct (trimStart s) as [|c s'] eqn:E; [done|].
  apply trimStart_head in E. rewrite trimEnd_cons by done.
  simpl. rewrite E. rewrite <- trimEnd_cons by done. apply trimEnd_idem.
Qed.

Lemma trim_length s : length (trim s) ≤ length s.
Proof.
  unfold trim. etrans; [apply trimEnd_length|]. apply trimStart_length.
Qed.

(** X1. Content that [validateMessage] accepts is still accepted once
    trimmed, trimming it again changes nothing, and trimming never makes
    it longer: the content that [sendMessage] stores in the user message
    ([content.trim()]) passes validation when [retryLastMessage] sends it
    again. *)
Theorem trimmed_content_still_valid content :
  validateMessage content = None →
  validateMessage (trim content) = None
  ∧ trim (trim content) = trim content
  ∧ length (trim content) ≤ length content.
Proof.
  intros Hv. split_and!; [|apply trim_idem|apply trim_length].
  unfold validateMessage in *. rewrite trim_idem.
  case_bool_decide; [done|].
  destruct (10000 <? Z.of_nat (length content))%Z eqn:Hlen; [done|].
  apply Z.ltb_ge in Hlen. pose proof (trim_length content).
  by rewrite (proj2 (Z.ltb_ge _ _)) by lia.
Qed.

Lemma trimmed_content_witness :
  validateMessage (js "  Where do I renew a passport?  ") = None
  ∧ validateMessage (trim (js "  Where do I renew a passport?  ")) = None
  ∧ trim (trim (js "  Where do I renew a passport?  "))
    = js "Where do I renew a passport?".
Proof.
  split; [by vm_compute|].
  destruct (trimmed_content_still_valid (js "  Where do I renew a passport?  "))
    as (Hv & Hidem & _); [by vm_compute|].
  split; [exact Hv|]. rewrite Hidem. by vm_compute.
Defined.

Lemma split_on_nonempty sep s : split_on sep s ≠ [].
Proof.
  induction s as [|c s IH]; simpl; [done|].
  destruct (c =? sep)%N; [done|]. by destruct (split_on sep s).
Qed.

(** Joining the first [n] pieces gives back a prefix of the string. *)
Lemma join_take_split_prefix sep n s :
  join [sep] (take n (split_on sep s)) `prefix_of` s.
Proof.
  revert n. induction s as [|c s IH]; intros n.
  - destruct n as [|[|n]]; apply prefix_nil.
  - simpl. destruct (c =? sep)%N eqn:Hc.
    + apply N.eqb_eq in Hc as ->. destruct n as [|n]; [apply prefix_nil|].
      simpl. specialize (IH n).
      destruct (take n (split_on sep s)) as [|q rest] eqn:Ht; [apply prefix_nil|].
      simpl. by apply prefix_cons.
    + pose proof (split_on_nonempty sep s) as Hne.
      destruct (split_on sep s) as [|piece rest] eqn:Hs; [done|].
      destruct n as [|n]; [apply prefix_nil|]. simpl.
      destruct (take n rest) as [|q rest'] eqn:Ht.
      * apply prefix_cons. specialize (IH 1). by destruct rest.
      * simpl. apply prefix_cons. specialize (IH (S n)). simpl in IH.
        by rewrite Ht in IH.
Qed.

Lemma join_split sep s : join [sep] (split_on sep s) = s.
Proof.
  induction s as [|c s IH]; [done|]. simpl.
  destruct (c =? sep)%N eqn:Hc.
  - apply N.eqb_eq in Hc as ->.
    pose proof (split_on_nonempty sep s).
    destruct (split_on sep s) as [|q rest] eqn:Hs; [done|].
    simpl. simpl in IH. by rewrite IH.
  - pose proof (split_on_nonempty sep s).
    destruct (split_on sep s) as [|q rest] eqn:Hs; [done|].
    destruct rest as [|q' rest]; simpl in *; by rewrite IH.
Qed.

(** X2. For a first message that is not blank, the title that
    [generateSessionTitle] derives is the trimmed message itself, or a
    proper prefix of the trimmed message followed by three dots; it is
    the trimmed message itself whenever splitting it at single spaces
    gives at most six pieces. *)
Theorem title_is_message_or_prefix firstMessage :
  blank firstMessage = false →
  let trimmed := trim firstMessage in
  let title := generateSessionTitle firstMessage in
  (title = trimmed
   ∨ ∃ shown, title = shown ++ js "..." ∧ shown `prefix_of` trimmed
              ∧ length shown < length trimmed)
  ∧ (length (split_on 32 trimmed) ≤ 6 → title = trimmed).
Proof.
  intros Hb trimmed title. subst title. unfold generateSessionTitle. fold trimmed.
  rewrite bool_decide_eq_false_2
    by (intros Ht; apply trim_nil_iff in Ht; congruence).
  change (js " ") with [32%N].
  pose proof (join_take_split_prefix 32 6 trimmed) as Hp.
  split.
  - destruct (_ <? _) eqn:Hlt.
    + right. eexists. split; [done|]. split; [done|]. by apply Nat.ltb_lt.
    + left. apply Nat.ltb_ge in Hlt. by apply prefix_length_eq.
  - intros Hwords. rewrite take_ge by done. rewrite join_split.
    by rewrite Nat.ltb_irrefl.
Qed.

Lemma title_witness :
  blank (js " Is street vending legal here? ") = false
  ∧ generateSessionTitle (js " Is street vending legal here? ")
    = js "Is street vending legal here?".
Proof.
  split; [by vm_compute|].
  destruct (title_is_message_or_prefix (js " Is street vending legal here? "))
    as [_ Hshort]; [by vm_compute|].
  etrans; [apply Hshort; apply (bool_decide_unpack _); by vm_compute|].
  by vm_compute.
Defined.

(* ===================================================================== *)
(** ** Proofs: how the workflows leave the store *)
(* ===================================================================== *)

Section Settle.
Context `{Runtime}.

(** [sendMessage] after the request has settled: the flags, the error
    and the title. *)
Lemma sendMessage_resume_state query aid outcome st k c :
  ChatState.currentSession st = Some c →
  ∃ st' k' c',
    sendMessage_resume query aid outcome (mkWorld st k) = (tt, mkWorld st' k') ∧
    ChatState.currentSession st' = Some c' ∧
    ChatSession.messages c'
    = patched aid (settled_updates outcome) (ChatSession.messages c) ∧
    ChatState.isLoading st' = false ∧
    ChatState.error st'
    = match outcome with
      | Resolved _ => ChatState.error st
      | Rejected e => Some (send_error e)
      end ∧
    ChatSession.title c'
    = match outcome with
      | Resolved _ =>
          if bool_decide (length (user_messages (ChatSession.messages c')) = 1)
          then Some (generateSessionTitle (text query))
          else ChatSession.title c
      | Rejected _ => ChatSession.title c
      end.
Proof.
  intros Hc. unfold sendMessage_resume, updateMessage, patched, user_messages.
  destruct outcome as [r|e]; run_store; rewrite Hc; cbn.
  - destruct (list_find _ _) as [[i m]|]; cbn; rewrite ?Hc; cbn;
      case_bool_decide; cbn; rewrite ?Hc; cbn;
      eexists _, _, _; (split; [reflexivity|]); cbn; rewrite ?Hc;
      (split; [reflexivity|]); cbn;
      rewrite ?bool_decide_eq_true_2, ?bool_decide_eq_false_2 by done; done.
  - destruct (list_find _ _) as [[i m]|]; cbn; rewrite ?Hc; cbn;
      eexists _, _, _; (split; [reflexivity|]); done.
Qed.

Lemma begin_send_title content options w :
  validateMessage content = None →
  ChatSession.title
    <$> ChatState.currentSession (state (exec (begin_send content options) w))
  = Some (ChatState.currentSession (state w) ≫= ChatSession.title).
Proof.
  intros Hv. destruct w as [st k]. unfold begin_send. rewrite Hv.
  unfold addMessage, createSession. run_store.
  destruct (ChatState.currentSession st) as [c|] eqn:Hc; cbn; [|done].
  by rewrite Hc.
Qed.

Lemma user_messages_patched aid updates ms :
  Message.p_role updates = None →
  length (user_messages (patched aid updates ms)) = length (user_messages ms).
Proof.
  intros Hrole. pose proof (patched_roles aid updates ms Hrole) as Hr.
  unfold user_messages.
  generalize dependent (patched aid updates ms). intros ms'. revert ms.
  induction ms' as [|m' ms' IH]; intros [|m ms] Hr; try done.
  injection Hr as Hm Hr. rewrite !filter_cons, Hm.
  destruct (decide (Message.role m = user)); cbn; by rewrite (IH ms).
Qed.

(** X3. [sendMessage] is called with valid content, and the id drawn for
    the placeholder is carried by no other message of the session. Once
    the request has settled, the session ends with the user message
    followed by the assistant message, which carries the response text
    and its metadata on success and the apology text and the error text
    on failure, and is no longer loading. The store's [isLoading] is
    false; its [error] is cleared on success and is the error text on
    failure. The query that went out carries the content as given, the
    location option and the id of the session. *)
Theorem sendMessage_settles content options w transport :
  blank content = false →
  (Z.of_nat (length content) ≤ 10000)%Z →
  Message.id (placeholder (send_base w))
    ∉ Message.id <$> (prior_messages (state w) ++ [user_message content (send_base w)]) →
  ∃ query c2,
    text query = content ∧
    q_location query = opt_location options ∧
    let outcome := transport query in
    let w2 := exec (sendMessage transport content options) w in
    ChatState.currentSession (state w2) = Some c2 ∧
    session_id query = Some (ChatSession.id c2) ∧
    ChatSession.messages c2
    = prior_messages (state w)
      ++ [user_message content (send_base w);
          Message.spread (placeholder (send_base w)) (settled_updates outcome)] ∧
    ChatState.isLoading (state w2) = false ∧
    ChatState.error (state w2)
    = match outcome with
      | Resolved _ => None
      | Rejected e => Some (send_error e)
      end.
Proof.
  intros Hb Hlen Hfresh. pose proof (validateMessage_ok content Hb Hlen) as Hv.
  destruct (begin_send_valid content options w Hv)
    as (st1 & c1 & sid & Hbegin & Hc1 & Hsid & Hms & _ & Herr).
  destruct (sendMessage_resume_state
              (mkChatQuery content (opt_location options) (Some sid))
              (Message.id (placeholder (send_base w)))
              (transport (mkChatQuery content (opt_location options) (Some sid)))
              st1 (12 + send_base w) c1 Hc1)
    as (st2 & k2 & c2 & Hrun & Hc2 & Hms2 & Hload & Herr2 & _).
  pose proof (sendMessage_resume_run
              (mkChatQuery content (opt_location options) (Some sid))
              (Message.id (placeholder (send_base w)))
              (transport (mkChatQuery content (opt_location options) (Some sid)))
              st1 (12 + send_base w) c1 Hc1)
    as (st2' & k2' & c2' & Hrun' & Hc2' & Hid & _).
  rewrite Hrun in Hrun'. injection Hrun' as <- <-. rewrite Hc2 in Hc2'.
  injection Hc2' as <-.
  exists (mkChatQuery content (opt_location options) (Some sid)), c2.
  split; [reflexivity|]. split; [reflexivity|]. cbn zeta.
  unfold exec, sendMessage, sendMessage_begin, mbind, M_bind. rewrite Hbegin, Hrun.
  cbn [snd state session_id]. split_and!; [done|congruence| |done|].
  - rewrite Hms2, Hms.
    change [user_message content (send_base w); placeholder (send_base w)]
      with ([user_message content (send_base w)] ++ [placeholder (send_base w)]).
    rewrite app_assoc, patched_last by done. by rewrite <- app_assoc.
  - rewrite Herr2, Herr. done.
Qed.

(** X4. After [sendMessage] on valid content, the title of the current
    session is [generateSessionTitle content] when the request succeeded
    and the session held no user message before the call; in every other
    case (the request failed, or the session already held a user message)
    it is the title the session had before, none for a session created
    by the call. *)
Theorem first_answer_sets_title content options w transport :
  blank content = false →
  (Z.of_nat (length content) ≤ 10000)%Z →
  ∃ query,
    text query = content ∧
    ChatSession.title
      <$> ChatState.currentSession
            (state (exec (sendMessage transport content options) w))
    = Some (match transport query with
            | Resolved _ =>
                if bool_decide (user_messages (prior_messages (state w)) = [])
                then Some (generateSessionTitle content)
                else ChatState.currentSession (state w) ≫= ChatSession.title
            | Rejected _ => ChatState.currentSession (state w) ≫= ChatSession.title
            end).
Proof.
  intros Hb Hlen. pose proof (validateMessage_ok content Hb Hlen) as Hv.
  pose proof (begin_send_title content options w Hv) as Htitle.
  destruct (begin_send_valid content options w Hv)
    as (st1 & c1 & sid & Hbegin & Hc1 & Hsid & Hms & _ & Herr).
  unfold exec in Htitle. rewrite Hbegin in Htitle. cbn [snd state] in Htitle.
  rewrite Hc1 in Htitle. injection Htitle as Htitle.
  destruct (sendMessage_resume_state
              (mkChatQuery content (opt_location options) (Some sid))
              (Message.id (placeholder (send_base w)))
              (transport (mkChatQuery content (opt_location options) (Some sid)))
              st1 (12 + send_base w) c1 Hc1)
    as (st2 & k2 & c2 & Hrun & Hc2 & Hms2 & _ & _ & Ht2).
  exists (mkChatQuery content (opt_location options) (Some sid)).
  split; [reflexivity|].
  unfold exec, sendMessage, sendMessage_begin, mbind, M_bind. rewrite Hbegin, Hrun.
  cbn [snd state text] in *. rewrite Hc2. cbn. f_equal. rewrite Ht2, Htitle.
  destruct (transport _) as [r|e]; [|done].
  rewrite Hms2, user_messages_patched, Hms by done.
  unfold user_messages. rewrite filter_app. cbn.
  rewrite length_app. cbn.
  rewrite decide_True, decide_False by done. cbn.
  destruct (filter _ (prior_messages (state w))) as [|m ms] eqn:Hf.
  - by rewrite !bool_decide_eq_true_2 by done.
  - rewrite !bool_decide_eq_false_2; [done..|]. cbn. lia.
Qed.

(** X5. Around a [sendMessage] on valid content (the placeholder's id
    being carried by no other message): while the request is awaited the
    hook's [isTyping] is true; once it has settled, [isTyping] is false
    and [getLastError] is null after a success and the error text after a
    failure (null again if that text is the empty string). *)
Theorem typing_indicator_follows_request content options w outcome :
  blank content = false →
  (Z.of_nat (length content) ≤ 10000)%Z →
  Message.id (placeholder (send_base w))
    ∉ Message.id <$> (prior_messages (state w) ++ [user_message content (send_base w)]) →
  ∃ query aid w1,
    sendMessage_begin content options w = (Awaiting query aid, w1) ∧
    isTyping (ChatState.currentSession (state w1)) = true ∧
    let w2 := exec (sendMessage_resume query aid outcome) w1 in
    isTyping (ChatState.currentSession (state w2)) = false ∧
    getLastError (ChatState.error (state w2)) (ChatState.currentSession (state w2))
    = match outcome with
      | Resolved _ => None
      | Rejected e =>
          if str_truthy (Some (send_error e)) then Some (send_error e) else None
      end.
Proof.
  intros Hb Hlen Hfresh. pose proof (validateMessage_ok content Hb Hlen) as Hv.
  destruct (begin_send_valid content options w Hv)
    as (st1 & c1 & sid & Hbegin & Hc1 & Hsid & Hms & _ & Herr).
  destruct (sendMessage_resume_state
              (mkChatQuery content (opt_location options) (Some sid))
              (Message.id (placeholder (send_base w))) outcome
              st1 (12 + send_base w) c1 Hc1)
    as (st2 & k2 & c2 & Hrun & Hc2 & Hms2 & Hload & Herr2 & _).
  eexists _, _, _. split; [exact Hbegin|]. cbn zeta. unfold exec. rewrite Hrun.
  cbn [snd state]. rewrite Hc1, Hc2, Herr2, Herr.
  assert (Hlast : last (ChatSession.messages c2)
                  = Some (Message.spread (placeholder (send_base w))
                            (settled_updates outcome))).
  { rewrite Hms2, Hms.
    change [user_message content (send_base w); placeholder (send_base w)]
      with ([user_message content (send_base w)] ++ [placeholder (send_base w)]).
    rewrite app_assoc, patched_last by done. apply last_snoc. }
  unfold isTyping, getLastError. rewrite Hlast, Hms.
  change [user_message content (send_base w); placeholder (send_base w)]
    with ([user_message content (send_base w)] ++ [placeholder (send_base w)]).
  rewrite app_assoc, last_snoc.
  split_and!; [done|by destruct outcome|].
  destruct outcome as [r|e]; [done|].
  destruct e as [[|]| |]; done.
Qed.

Lemma stream_callbacks_app aid acc cbs1 cbs2 w :
  stream_callbacks aid acc (cbs1 ++ cbs2) w
  = let '(acc', w') := stream_callbacks aid acc cbs1 w in
    stream_callbacks aid acc' cbs2 w'.
Proof.
  revert acc w. induction cbs1 as [|cb cbs1 IH]; intros acc w; [done|].
  cbn [app stream_callbacks]. unfold mbind, M_bind.
  destruct (stream_callback aid acc cb w) as [acc1 w1]. apply IH.
Qed.

(** Non-terminal callbacks touch neither the error of the placeholder nor
    the store's error. *)
Lemma stream_callbacks_keep_errors aid before cbs :
  aid ∉ Message.id <$> before →
  Forall (λ cb, terminal cb = false) cbs →
  ∀ acc st k c p,
    ChatState.currentSession st = Some c →
    ChatSession.messages c = before ++ [p] →
    Message.id p = aid →
    ∃ st' c' p',
      snd (stream_callbacks aid acc cbs (mkWorld st k)) = mkWorld st' k ∧
      ChatState.currentSession st' = Some c' ∧
      ChatSession.messages c' = before ++ [p'] ∧
      Message.id p' = aid ∧
      Message.error p' = Message.error p ∧
      ChatState.error st' = ChatState.error st.
Proof.
  intros Hfresh Hnt.
  induction Hnt as [|cb cbs Hcb _ IH]; intros acc st k c p Hc Hms Hid.
  - cbn. by eexists _, _, _.
  - assert (∃ updates acc1,
              Message.p_id updates = None ∧ Message.p_error updates = None
              ∧ stream_callback aid acc cb
                = (updateMessage aid updates;; mret acc1))
      as (updates & acc1 & Hpid & Hperr & Hcb').
    { destruct cb as [chunk|metadata| |]; try done;
        (eexists _, _; split_and!; [..|reflexivity]; reflexivity). }
    destruct (updateMessage_run aid updates st k) as (st1 & Hrun & Hcur & _ & Herr & _).
    rewrite Hc in Hcur. cbn in Hcur. rewrite Hms, patched_last in Hcur by done.
    edestruct (IH acc1 st1 k) as (st' & c' & p' & Hrun' & ? & ? & ? & Hep & Hes);
      [exact Hcur|reflexivity| |].
    { unfold Message.spread. cbn. by rewrite Hpid. }
    exists st', c', p'. cbn [stream_callbacks]. rewrite Hcb'.
    unfold mbind, M_bind, mret, M_ret. rewrite Hrun. cbn.
    split_and!; [done..| |congruence].
    rewrite Hep. unfold Message.spread. cbn. by rewrite Hperr.
Qed.

(** X6. [streamMessage] on valid content (the placeholder's id being
    carried by no other message), with a stream that delivers chunks and
    metadata and then ends. After [onComplete] the placeholder holds the
    concatenated chunks and no error, and the store has no error. After
    [onError] it holds the concatenated chunks, or the apology text when
    no chunk arrived, together with the error text, which is also the
    store's error. In both cases the placeholder and the store are no
    longer loading. *)
Theorem stream_end_settles_placeholder content options w body t :
  blank content = false →
  (Z.of_nat (length content) ≤ 10000)%Z →
  Message.id (placeholder (send_base w))
    ∉ Message.id <$> (prior_messages (state w) ++ [user_message content (send_base w)]) →
  Forall (λ cb, terminal cb = false) body →
  terminal t = true →
  let received := concat (chunks body) in
  let w2 := exec (streamMessage (λ _, (body ++ [t], Resolved tt)) content options) w in
  ∃ c p,
    ChatState.currentSession (state w2) = Some c ∧
    last (ChatSession.messages c) = Some p ∧
    Message.id p = Message.id (placeholder (send_base w)) ∧
    Message.isLoading p = Some false ∧
    ChatState.isLoading (state w2) = false ∧
    match t with
    | onError error =>
        Message.content p = error_content received ∧
        Message.error p = Some error ∧
        ChatState.error (state w2) = Some error
    | _ =>
        Message.content p = received ∧
        Message.error p = None ∧
        ChatState.error (state w2) = None
    end.
Proof.
  intros Hb Hlen Hfresh Hnt Ht received w2.
  pose proof (validateMessage_ok content Hb Hlen) as Hv.
  destruct (begin_send_valid content options w Hv)
    as (st1 & c1 & sid & Hbegin & Hc1 & _ & Hms & _ & Herr).
  change [user_message content (send_base w); placeholder (send_base w)]
    with ([user_message content (send_base w)] ++ [placeholder (send_base w)]) in Hms.
  rewrite app_assoc in Hms.
  destruct (stream_callbacks_accumulate _ _ body Hfresh Hnt [] st1
              (12 + send_base w) c1 _ Hc1 Hms eq_refl eq_refl eq_refl)
    as (st' & c' & p' & Hrun & Hc' & Hms' & Hid & _ & Hcontent & _).
  destruct (stream_callbacks_keep_errors _ _ body Hfresh Hnt [] st1
              (12 + send_base w) c1 _ Hc1 Hms eq_refl)
    as (st'' & c'' & p'' & Hrun2 & Hc'' & Hms'' & _ & Hep & Hes).
  rewrite Hrun in Hrun2. cbn in Hrun2. injection Hrun2 as <-.
  rewrite Hc' in Hc''. injection Hc'' as <-. rewrite Hms' in Hms''.
  apply app_inj_tail in Hms'' as [_ <-]. cbn in Hep. rewrite Herr in Hes.
  assert (Hw2 : w2 = snd (stream_callback (Message.id (placeholder (send_base w)))
                            received t (mkWorld st' (12 + send_base w)))).
  { subst w2. unfold exec, streamMessage, streamMessage_begin, streamMessage_resume.
    unfold mbind at 1, M_bind at 1. rewrite Hbegin. cbn beta iota zeta.
    unfold mbind at 1, M_bind at 1. rewrite stream_callbacks_app, Hrun.
    cbn [stream_callbacks app]. unfold mbind, M_bind, mret, M_ret.
    by destruct (stream_callback _ _ t _). }
  clearbody w2. subst w2. cbn in Hcontent.
  destruct t as [chunk|metadata|error|]; try done; cbn [stream_callback].
  - destruct (updateMessage_run (Message.id (placeholder (send_base w)))
        (Message.mkPartial None None (Some (error_content received))
           None None (Some false) (Some error))
        st' (12 + send_base w)) as (st3 & Hrun3 & Hcur & _).
    rewrite Hc' in Hcur. cbn in Hcur. rewrite Hms', patched_last in Hcur by done.
    unfold mbind, M_bind, mret, M_ret.
    change (match received with
            | [] => js "Sorry, I encountered an error."
            | _ :: _ => received
            end) with (error_content received).
    rewrite Hrun3. cbn.
    rewrite Hcur. eexists _, _. split; [reflexivity|]. cbn. rewrite last_snoc.
    split; [reflexivity|]. done.
  - destruct (updateMessage_run (Message.id (placeholder (send_base w)))
        (Message.mkPartial None None None None None (Some false) None)
        st' (12 + send_base w)) as (st3 & Hrun3 & Hcur & _ & Herr3 & _).
    rewrite Hc' in Hcur. cbn in Hcur. rewrite Hms', patched_last in Hcur by done.
    unfold mbind, M_bind, mret, M_ret. rewrite Hrun3. cbn.
    rewrite Hcur. eexists _, _. split; [reflexivity|]. cbn. rewrite last_snoc.
    split; [reflexivity|]. cbn. split_and!; try done. congruence.
Qed.

End Settle.

Lemma patched_absent messageId updates ms :
  messageId ∉ Message.id <$> ms → patched messageId updates ms = ms.
Proof.
  intros Hnotin. unfold patched.
  destruct (list_find _ _) as [[i m]|] eqn:Hf; [|done].
  apply list_find_Some in Hf as (Hi & Hm & _). exfalso. apply Hnotin.
  apply list_elem_of_fmap. exists m. split; [done|]. by eapply list_elem_of_lookup_2.
Qed.

Section LateResponse.
Context `{Runtime}.

(** X20. The request of a [sendMessage] settles while the current session
    holds no message with the placeholder's id (the user has loaded or
    created another session in the meantime). The response is not
    written anywhere: the messages of the current session are unchanged.
    The store still ends not loading, a failure still sets the store's
    error, and on success the current session, if it holds exactly one
    user message, takes the title generated from the content that was
    sent from the other session. *)
Theorem response_after_session_switch query aid outcome w c :
  ChatState.currentSession (state w) = Some c →
  aid ∉ Message.id <$> ChatSession.messages c →
  let w2 := exec (sendMessage_resume query aid outcome) w in
  ∃ c2,
    ChatState.currentSession (state w2) = Some c2 ∧
    ChatSession.messages c2 = ChatSession.messages c ∧
    ChatSession.title c2
    = match outcome with
      | Resolved _ =>
          if bool_decide (length (user_messages (ChatSession.messages c)) = 1)
          then Some (generateSessionTitle (text query))
          else ChatSession.title c
      | Rejected _ => ChatSession.title c
      end ∧
    ChatState.isLoading (state w2) = false ∧
    ChatState.error (state w2)
    = match outcome with
      | Resolved _ => ChatState.error (state w)
      | Rejected e => Some (send_error e)
      end.
Proof.
  intros Hc Hnotin w2. destruct w as [st k]. cbn in Hc.
  destruct (sendMessage_resume_state query aid outcome st k c Hc)
    as (st2 & k2 & c2 & Hrun & Hc2 & Hms & Hload & Herr & Htitle).
  rewrite patched_absent in Hms by done.
  exists c2. subst w2. unfold exec. rewrite Hrun. cbn [snd state].
  rewrite Hms in Htitle. by split_and!.
Qed.

End LateResponse.

(* ===================================================================== *)
(** ** Proofs: retry, sessions and messages *)
(* ===================================================================== *)

Lemma list_find_last_user (before after : list Message.t) m :
  Message.role m = user →
  Forall (λ x, Message.role x ≠ user) after →
  snd <$> list_find (λ x, Message.role x = user) (rev (before ++ m :: after))
  = Some m.
Proof.
  intros Hm Hafter. rewrite rev_app_distr. cbn [rev]. rewrite <- app_assoc.
  rewrite list_find_app_r.
  - cbn. rewrite decide_True by done. done.
  - apply list_find_None, Forall_forall. intros x Hx.
    rewrite Forall_forall in Hafter. apply Hafter.
    apply list_elem_of_In, in_rev in Hx. by apply list_elem_of_In.
Qed.

Section Retry.
Context `{Runtime}.

(** X7. [retryLastMessage] does nothing at all when there is no current
    session, when the session holds fewer than two messages, or when none
    of its messages is a user message: the state is unchanged, nothing is
    drawn and no query goes out. *)
Theorem retry_without_user_message_does_nothing w transport :
  match ChatState.currentSession (state w) with
  | None => True
  | Some c =>
      length (ChatSession.messages c) < 2
      ∨ Forall (λ m, Message.role m ≠ user) (ChatSession.messages c)
  end →
  retryLastMessage_begin w = (Returned, w)
  ∧ retryLastMessage transport w = (tt, w).
Proof.
  intros Hw.
  assert (Hbegin : retryLastMessage_begin w = (Returned, w)).
  { unfold retryLastMessage_begin. unfold mbind at 1, M_bind at 1, get at 1.
    destruct (ChatState.currentSession (state w)) as [c|]; [|done].
    destruct (_ <? 2) eqn:Hlen; [done|].
    destruct Hw as [Hw|Hw]; [apply Nat.ltb_ge in Hlen; lia|].
    destruct (list_find _ _) as [[i m]|] eqn:Hf; [|done].
    apply list_find_Some in Hf as (Hi & Hm & _). exfalso.
    apply list_elem_of_lookup_2, list_elem_of_In, in_rev, list_elem_of_In in Hi.
    rewrite Forall_forall in Hw. by apply (Hw m). }
  split; [done|]. unfold retryLastMessage, mbind, M_bind. by rewrite Hbegin.
Qed.

Lemma retry_begin_run w c m :
  ChatState.currentSession (state w) = Some c →
  2 ≤ length (ChatSession.messages c) →
  snd <$> list_find (λ x, Message.role x = user) (rev (ChatSession.messages c))
  = Some m →
  ∃ st0,
    ChatState.currentSession st0
    = Some (ChatSession.with_messages (retry_kept (ChatSession.messages c)) c) ∧
    retryLastMessage_begin w
    = sendMessage_begin (Message.content m) no_options (mkWorld st0 (draws w)).
Proof.
  intros Hc Hlen Hfind. destruct w as [st k]. cbn in *.
  unfold retryLastMessage_begin. unfold mbind at 1, M_bind at 1, get at 1.
  cbv beta iota. cbn [state]. rewrite Hc. rewrite (proj2 (Nat.ltb_ge _ _)) by done.
  destruct (list_find _ _) as [[i m']|]; [|done]. injection Hfind as ->.
  unfold retry_kept.
  destruct (last (ChatSession.messages c)) as [lastMessage|] eqn:Hlast.
  - destruct (bool_decide _ && _).
    + destruct (deleteMessage_run (Message.id lastMessage) st k c Hc)
        as (st1 & Hdel & Hc1).
      exists st1. split; [done|]. unfold mbind, M_bind. by rewrite Hdel.
    + exists st. split; [by destruct c|done].
  - exists st. split; [by destruct c|done].
Qed.

(** X8. With at least two messages in the current session, one of them
    a user message, [retryLastMessage] removes the messages that carry
    the id of the last message when that is an assistant message with an
    error or still loading, and then calls [sendMessage] on the content
    of the most recent user message, whatever follows it. If that content
    passes validation, the query carries it and the session then holds
    the kept messages followed by a new user message and a new
    placeholder. If it does not (it is blank or longer than 10000
    characters, as the content of an imported message can be), nothing is
    sent and nothing is drawn: the session holds the kept messages and
    the store's error is the validation text. *)
Theorem retry_resends_last_user_message w c before m after :
  ChatState.currentSession (state w) = Some c →
  ChatSession.messages c = before ++ m :: after →
  2 ≤ length (ChatSession.messages c) →
  Message.role m = user →
  Forall (λ x, Message.role x ≠ user) after →
  match validateMessage (Message.content m) with
  | None =>
      ∃ query aid w1 c1,
        retryLastMessage_begin w = (Awaiting query aid, w1) ∧
        text query = Message.content m ∧
        ChatState.currentSession (state w1) = Some c1 ∧
        ChatSession.messages c1
        = retry_kept (ChatSession.messages c)
          ++ [user_message (Message.content m) (draws w); placeholder (draws w)]
  | Some validation =>
      ∃ w1 c1,
        retryLastMessage_begin w = (Returned, w1) ∧
        ChatState.currentSession (state w1) = Some c1 ∧
        ChatSession.messages c1 = retry_kept (ChatSession.messages c) ∧
        ChatState.error (state w1) = Some validation ∧
        draws w1 = draws w
  end.
Proof.
  intros Hc Hms Hlen Hm Hafter.
  destruct (retry_begin_run w c m Hc Hlen) as (st0 & Hc0 & ->).
  { rewrite Hms. by apply list_find_last_user. }
  destruct (validateMessage (Message.content m)) as [validation|] eqn:Hv.
  - unfold sendMessage_begin. rewrite (begin_send_invalid _ _ _ validation Hv).
    eexists _, _. split; [reflexivity|]. cbn. by rewrite Hc0.
  - destruct (begin_send_valid (Message.content m) no_options
                (mkWorld st0 (draws w)) Hv)
      as (st1 & c1 & sid & Hbegin & Hc1 & Hsid & Hms1 & _).
    unfold prior_messages, send_base in Hms1, Hbegin.
    cbn [state draws] in Hms1, Hbegin.
    rewrite Hc0 in Hms1, Hbegin. cbn in Hms1.
    eexists _, _, _, c1. unfold sendMessage_begin. split; [exact Hbegin|].
    cbn [state text]. split_and!; done.
Qed.

(** X9. [loadSession] never changes [sessions]. For a non-empty id that
    some session carries, it resolves, makes the first session with that
    id current, clears the error and ends not loading. For an id that no
    session carries it leaves the current session as it was and sets the
    error: the invalid-id text for the empty id, which resolves, and the
    not-found text otherwise, which rejects with the same text. *)
Theorem loadSession_known_or_unknown sessionId w :
  let r := fst (loadSession sessionId w) in
  let w' := exec (loadSession sessionId) w in
  ChatState.sessions (state w') = ChatState.sessions (state w)
  ∧ (sessionId ≠ [] →
     sessionId ∈ ChatSession.id <$> ChatState.sessions (state w) →
     ∃ i s,
       list_find (λ s, ChatSession.id s = sessionId) (ChatState.sessions (state w))
       = Some (i, s)
       ∧ r = Resolved tt
       ∧ ChatState.currentSession (state w') = Some s
       ∧ ChatState.error (state w') = None
       ∧ ChatState.isLoading (state w') = false)
  ∧ (sessionId ∉ ChatSession.id <$> ChatState.sessions (state w) →
     ChatState.currentSession (state w') = ChatState.currentSession (state w)
     ∧ ChatState.error (state w')
       = Some (if bool_decide (sessionId = []) then js "Invalid session ID"
               else js "Session not found")
     ∧ r = (if bool_decide (sessionId = []) then Resolved tt
            else Rejected (OtherError (js "Session not found")))).
Proof.
  destruct w as [st k]. unfold loadSession. split_and!.
  - case_bool_decide; run_store; [done|]. by destruct (list_find _ _) as [[i s]|].
  - intros Hne (s0 & Hid & Hin)%list_elem_of_fmap.
    rewrite bool_decide_eq_false_2 by done. run_store.
    destruct (list_find_elem_of (λ s, ChatSession.id s = sessionId)
                (ChatState.sessions st) s0) as [[i s] Hf]; [done..|].
    rewrite Hf. by exists i, s.
  - intros Hnotin. case_bool_decide; run_store; [done|].
    destruct (list_find _ _) as [[i s]|] eqn:Hf; [|done].
    apply list_find_Some in Hf as (Hi & Hs & _). exfalso. apply Hnotin.
    apply list_elem_of_fmap. exists s. split; [done|]. by eapply list_elem_of_lookup_2.
Qed.

(** X10. On every payload that the guard rejects, and on every payload
    whose session has the declared type [ChatSession], [importSession]
    returns, and it has done one of two things. It has rejected the
    payload: [sessions] and the current session are as they were, the
    error is the invalid-format text and nothing was drawn. Or it has
    accepted it: exactly one new session, with a freshly generated id,
    is in front of the unchanged [sessions] and is current, and the error
    is cleared. [isLoading] and [isConnected] are never touched. *)
Theorem importSession_all_or_nothing data w :
  declared_payload data →
  ∃ b w',
    importSession data w = Some (b, w')
    ∧ b = bool_decide (is_Some (JSON_parse data ≫= import_guard))
    ∧ ChatState.isLoading (state w') = ChatState.isLoading (state w)
    ∧ ChatState.isConnected (state w') = ChatState.isConnected (state w)
    ∧ if b then
        ∃ session,
          ChatState.sessions (state w') = session :: ChatState.sessions (state w)
          ∧ ChatState.currentSession (state w') = Some session
          ∧ ChatSession.id session = generateId_draw (draws w)
          ∧ ChatState.error (state w') = None
      else
        ChatState.sessions (state w') = ChatState.sessions (state w)
        ∧ ChatState.currentSession (state w') = ChatState.currentSession (state w)
        ∧ ChatState.error (state w') = Some (js "Invalid session data format")
        ∧ draws w' = draws w.
Proof.
  destruct w as [st k]. unfold importSession, declared_payload.
  destruct (JSON_parse data ≫= import_guard) as [session|]; cbn.
  - intros [[[ms ttl] loc] ->]. cbn. eexists true, _. split; [reflexivity|].
    split; [done|].
    run_store. split_and!; [done..|]. by eexists.
  - intros _. eexists false, _. split; [reflexivity|].
    done.
Qed.

(** X12. With a current session, [addMessage] followed by
    [deleteMessage] on the id of the added message gives back the
    session's message list, provided no earlier message carries that
    id. *)
Theorem addMessage_then_deleteMessage d w c :
  ChatState.currentSession (state w) = Some c →
  let messageId := default (generateId_draw (draws w)) (d_id d) in
  messageId ∉ Message.id <$> ChatSession.messages c →
  prior_messages (state (exec (addMessage d;; deleteMessage messageId) w))
  = ChatSession.messages c.
Proof.
  intros Hc messageId Hfresh. destruct w as [st k]. cbn in *.
  unfold addMessage, deleteMessage, prior_messages. run_store. rewrite Hc. cbn.
  rewrite filter_app, filter_cons_False by (intros Hn; by apply Hn).
  rewrite filter_nil, app_nil_r.
  clear Hc. induction (ChatSession.messages c) as [|m ms IH]; [done|].
  rewrite fmap_cons in Hfresh. apply not_elem_of_cons in Hfresh as [Hne Hfresh].
  rewrite filter_cons_True by done. by rewrite IH.
Qed.

(** X13. [updateMessage] with an id that no message of the current
    session carries, or without a current session, changes nothing. *)
Theorem updateMessage_unknown_id messageId updates w :
  messageId ∉ Message.id <$> prior_messages (state w) →
  updateMessage messageId updates w = (tt, w).
Proof.
  destruct w as [[current sessions isLoading error isConnected] k].
  unfold prior_messages, updateMessage. run_store. intros Hnotin.
  destruct current as [c|]; cbn in *; [|done].
  destruct (list_find _ _) as [[i m]|] eqn:Hf; [|done].
  apply list_find_Some in Hf as (Hi & Hm & _). exfalso. apply Hnotin.
  apply list_elem_of_fmap. exists m. split; [done|]. by eapply list_elem_of_lookup_2.
Qed.

End Retry.

(* ===================================================================== *)
(** ** Proofs: the stored sessions *)
(* ===================================================================== *)

Lemma snd_list_find_cons {A} (P : A → Prop) `{!∀ x, Decision (P x)} x l :
  snd <$> list_find P (x :: l)
  = if decide (P x) then Some x else snd <$> list_find P l.
Proof.
  cbn. destruct (decide (P x)); [done|]. by destruct (list_find P l) as [[]|].
Qed.

Lemma list_find_filter_id (sid sessionId : JsString) (l : list ChatSession.t) :
  sid ≠ sessionId →
  snd <$> list_find (λ s, ChatSession.id s = sid)
            (filter (λ s, ChatSession.id s ≠ sessionId) l)
  = snd <$> list_find (λ s, ChatSession.id s = sid) l.
Proof.
  intros Hne. induction l as [|x l IH]; [done|].
  rewrite filter_cons, (snd_list_find_cons _ x l).
  destruct (decide (ChatSession.id x ≠ sessionId)) as [Hx|Hx].
  - rewrite snd_list_find_cons. by rewrite IH.
  - rewrite IH. rewrite decide_False; [done|]. apply dec_stable in Hx. congruence.
Qed.

Lemma list_find_updateSessionInArray l sid u :
  snd <$> list_find (λ s, ChatSession.id s = sid) (updateSessionInArray l sid u)
  = (λ s, ChatSession.spread s u)
    <$> (snd <$> list_find (λ s, ChatSession.id s = sid) l).
Proof.
  unfold updateSessionInArray.
  destruct (list_find _ l) as [[i s]|] eqn:Hf; cbn; [|by rewrite Hf].
  pose proof Hf as (Hi & Hs & Hleast)%list_find_Some.
  replace (list_find (λ s0, ChatSession.id s0 = sid) (<[i:=ChatSession.spread s u]> l))
    with (Some (i, ChatSession.spread s u)); [done|].
  symmetry. apply list_find_insert_Some. right. left.
  split_and!; [done..|by eapply lookup_lt_Some|done|done].
Qed.

Section Mirror.
Context `{Runtime}.

Lemma createSession_mirrored : preserves mirrored createSession.
Proof.
  intros w _. unfold createSession, mirrored, stored_copy. run_store.
  rewrite decide_True by done. by intros s [= <-].
Qed.

Lemma loadSession_mirrored sessionId : preserves mirrored (loadSession sessionId).
Proof.
  intros [st k]. unfold loadSession, mirrored, stored_copy.
  case_bool_decide; run_store; [done|].
  destruct (list_find _ _) as [[i s]|] eqn:Hf; cbn; [|done].
  intros _ s'. pose proof Hf as (_ & <- & _)%list_find_Some.
  rewrite Hf. by intros [= <-].
Qed.

Lemma deleteSession_mirrored sessionId : preserves mirrored (deleteSession sessionId).
Proof.
  apply preserves_set. intros [current sessions isLoading error isConnected].
  unfold mirrored, stored_copy. cbn.
  destruct current as [c|]; cbn; [|done].
  case_bool_decide; cbn; [done|].
  intros Hm s. rewrite list_find_filter_id by done. apply Hm.
Qed.

Lemma addMessage_mirrored d : preserves mirrored (addMessage d).
Proof.
  intros [st k]. unfold addMessage, mirrored, stored_copy. run_store.
  destruct (ChatState.currentSession st) as [c|] eqn:Hc; cbn; [|by rewrite ?Hc].
  intros Hm s. rewrite list_find_updateSessionInArray.
  destruct (list_find _ _) as [[i s0]|]; cbn; [|done].
  specialize (Hm s0 eq_refl) as (? & ? & ? & ? & ?).
  intros [= <-]. by repeat split.
Qed.

Lemma updateMessage_mirrored messageId updates :
  preserves mirrored (updateMessage messageId updates).
Proof.
  intros [st k]. unfold updateMessage, mirrored, stored_copy. run_store.
  destruct (ChatState.currentSession st) as [c|] eqn:Hc; cbn; [|by rewrite ?Hc].
  destruct (list_find _ (ChatSession.messages c)) as [[i m]|]; cbn; [|by rewrite Hc].
  intros Hm s. rewrite list_find_updateSessionInArray.
  destruct (list_find _ _) as [[j s0]|]; cbn; [|done].
  specialize (Hm s0 eq_refl) as (? & ? & ? & ? & ?).
  intros [= <-]. by repeat split.
Qed.

Lemma deleteMessage_mirrored messageId : preserves mirrored (deleteMessage messageId).
Proof.
  intros [st k]. unfold deleteMessage, mirrored, stored_copy. run_store.
  destruct (ChatState.currentSession st) as [c|] eqn:Hc; cbn; [|by rewrite ?Hc].
  intros Hm s. rewrite list_find_updateSessionInArray.
  destruct (list_find _ _) as [[j s0]|]; cbn; [|done].
  specialize (Hm s0 eq_refl) as (? & ? & ? & ? & ?).
  intros [= <-]. by repeat split.
Qed.

(** The title update of [sendMessage]: [session] is the current session
    that [get()] returned just before. *)
Lemma title_update_mirrored content :
  preserves mirrored
    (st ← get;
     match ChatState.currentSession st with
     | Some session =>
         if bool_decide
              (length (filter (λ m, Message.role m = user)
                         (ChatSession.messages session)) = 1%nat)
         then
           let title := generateSessionTitle content in
           t1 ← Date_now;
           t2 ← Date_now;
           set (λ st,
             match ChatState.currentSession st with
             | Some c =>
                 ChatState.with_sessions
                   (updateSessionInArray (ChatState.sessions st)
                      (ChatSession.id session)
                      (ChatSession.mkPartial None (Some t2) (Some title)))
                   (ChatState.with_currentSession
                      (Some (ChatSession.with_updated_at t1
                               (ChatSession.with_title title c))) st)
             | None => st
             end)
         else mret tt
     | None => mret tt
     end).
Proof.
  intros [st k]. unfold mirrored, stored_copy. run_store.
  destruct (ChatState.currentSession st) as [c|] eqn:Hc; cbn; [|by rewrite ?Hc].
  case_bool_decide; cbn; rewrite Hc; cbn; [|done].
  intros Hm s. rewrite list_find_updateSessionInArray.
  destruct (list_find _ _) as [[j s0]|]; cbn; [|done].
  specialize (Hm s0 eq_refl) as (? & ? & ? & ? & ?).
  intros [= <-]. by repeat split.
Qed.

Lemma mirrored_set_flags (f : ChatState.t → ChatState.t) :
  (∀ st, ChatState.currentSession (f st) = ChatState.currentSession st
         ∧ ChatState.sessions (f st) = ChatState.sessions st) →
  preserves mirrored (set f).
Proof.
  intros Hf. apply preserves_set. intros st. unfold mirrored, stored_copy.
  by destruct (Hf st) as [-> ->].
Qed.

#[local] Hint Resolve preserves_ret preserves_get preserves_generateId
  preserves_Date_now createSession_mirrored loadSession_mirrored
  deleteSession_mirrored addMessage_mirrored updateMessage_mirrored
  deleteMessage_mirrored title_update_mirrored : preserves.
#[local] Hint Extern 1 (preserves mirrored (set _)) =>
  (apply mirrored_set_flags; intros ?; split; reflexivity) : preserves.

Lemma begin_send_mirrored content options :
  preserves mirrored (begin_send content options).
Proof. unfold begin_send. preserve. Qed.

Lemma sendMessage_resume_mirrored query aid outcome :
  preserves mirrored (sendMessage_resume query aid outcome).
Proof.
  unfold sendMessage_resume. destruct outcome as [r|e].
  - apply preserves_bind; [|intros ?; auto with preserves].
    apply preserves_bind; [auto with preserves|intros ?].
    apply title_update_mirrored.
  - preserve.
Qed.

Lemma stream_callback_mirrored aid acc cb :
  preserves mirrored (stream_callback aid acc cb).
Proof. unfold stream_callback. preserve. Qed.

Lemma streamMessage_catch_mirrored aid e :
  preserves mirrored (streamMessage_catch aid e).
Proof. unfold streamMessage_catch. preserve. Qed.

#[local] Hint Resolve begin_send_mirrored sendMessage_resume_mirrored
  stream_callback_mirrored streamMessage_catch_mirrored : preserves.

Lemma retryLastMessage_begin_mirrored : preserves mirrored retryLastMessage_begin.
Proof. unfold retryLastMessage_begin, sendMessage_begin. preserve. Qed.

Lemma exportSession_mirrored : preserves mirrored exportSession.
Proof. unfold exportSession. preserve. Qed.

#[local] Hint Resolve retryLastMessage_begin_mirrored exportSession_mirrored
  : preserves.

Lemma importSession_mirrored data w b w' :
  mirrored (state w) → importSession data w = Some (b, w') → mirrored (state w').
Proof.
  destruct w as [st k]. unfold importSession, mirrored, stored_copy.
  destruct (JSON_parse data ≫= import_guard) as [session|]; cbn.
  - destruct (imported_props session) as [[[ms ttl] loc]|]; cbn; [|done].
    intros _ [= <- <-]. run_store. rewrite decide_True by done. by intros s [= <-].
  - by intros ? [= <- <-].
Qed.

Lemma segment_mirrored m : segment m → preserves mirrored m.
Proof.
  destruct 1;
    unfold setLoading, setError, setConnected, clearError, clearCurrentSession,
      clearAllSessions; preserve; by apply preserves_set.
Qed.

Lemma reachable_mirrored w : reachable w → mirrored (state w).
Proof.
  induction 1 as [sessions k|w m _ IH Hm|w data b w' _ IH Himport].
  - done.
  - by apply segment_mirrored.
  - by eapply importSession_mirrored.
Qed.

(** X14. The store starts with no current session and the persisted
    sessions, and then runs its actions in any order, interleaved at
    their suspension points, and imports payloads that are rejected or
    whose session has the declared type [ChatSession] (the imports that
    this typed embedding represents). In every state reached in this way
    the current session has a stored copy in [sessions], namely the first
    entry with its id, and that copy has the same messages, title,
    creation time and location: the two differ at most in
    [updated_at]. *)
Theorem current_session_is_stored w c :
  reachable w →
  ChatState.currentSession (state w) = Some c →
  ∃ s, stored_copy (state w) c = Some s
       ∧ s ∈ ChatState.sessions (state w)
       ∧ same_but_updated_at s c.
Proof.
  intros Hr Hc.
  pose proof (reachable_current_in_sessions w Hr) as Hin.
  pose proof (reachable_mirrored w Hr) as Hm.
  unfold current_in_sessions, mirrored in *. rewrite Hc in Hin, Hm.
  apply list_elem_of_fmap in Hin as (s0 & Hid & Hs0).
  destruct (list_find_elem_of (λ s, ChatSession.id s = ChatSession.id c)
              (ChatState.sessions (state w)) s0) as [[i s] Hf]; [done..|].
  exists s. unfold stored_copy in *. rewrite Hf in *. cbn.
  split_and!; [done| |by apply Hm].
  apply list_find_Some in Hf as (Hi & _). by eapply list_elem_of_lookup_2.
Qed.

End Mirror.

Section Ids.
Context `{Runtime}.

Lemma ids_set_flags l (f : ChatState.t → ChatState.t) :
  (∀ st, ChatState.sessions (f st) = ChatState.sessions st) →
  preserves (ids_are l) (set f).
Proof.
  intros Hf. apply preserves_set. intros st. unfold ids_are, session_ids.
  by rewrite Hf.
Qed.

Lemma addMessage_ids l d : preserves (ids_are l) (addMessage d).
Proof.
  intros [st k]. unfold addMessage, ids_are, session_ids. run_store.
  destruct (ChatState.currentSession st) as [c|] eqn:Hc; cbn; [|done].
  by rewrite updateSessionInArray_ids.
Qed.

Lemma updateMessage_ids l messageId updates :
  preserves (ids_are l) (updateMessage messageId updates).
Proof.
  intros [st k]. unfold updateMessage, ids_are, session_ids. run_store.
  destruct (ChatState.currentSession st) as [c|] eqn:Hc; cbn; [|done].
  destruct (list_find _ _) as [[i m]|]; cbn; [|done].
  by rewrite updateSessionInArray_ids.
Qed.

#[local] Hint Resolve preserves_ret preserves_get preserves_generateId
  preserves_Date_now addMessage_ids updateMessage_ids : preserves.
#[local] Hint Extern 1 (preserves (ids_are _) (set _)) =>
  (apply ids_set_flags; intros ?; reflexivity) : preserves.

Lemma sendMessage_resume_ids l query aid outcome :
  preserves (ids_are l) (sendMessage_resume query aid outcome).
Proof.
  unfold sendMessage_resume. preserve.
  apply preserves_set. intros st. unfold ids_are, session_ids.
  destruct (ChatState.currentSession st); [|done]. cbn.
  by rewrite updateSessionInArray_ids.
Qed.

Lemma stream_callbacks_ids l aid cbs acc :
  preserves (ids_are l) (stream_callbacks aid acc cbs).
Proof.
  revert acc. induction cbs as [|cb cbs IH]; intros acc; cbn; [apply preserves_ret|].
  apply preserves_bind; [|done]. unfold stream_callback. preserve.
Qed.

Lemma streamMessage_resume_ids l aid cbs settled :
  preserves (ids_are l) (streamMessage_resume aid cbs settled).
Proof.
  unfold streamMessage_resume, streamMessage_catch.
  pose proof (stream_callbacks_ids l aid cbs []). preserve.
Qed.

Lemma begin_send_ids content options w :
  session_ids (state (exec (begin_send content options) w))
  = created_by_send content w ++ session_ids (state w).
Proof.
  destruct w as [st k]. unfold begin_send, created_by_send, session_ids.
  destruct (validateMessage content) as [e|]; [done|].
  unfold addMessage, createSession. run_store.
  destruct (ChatState.currentSession st) as [c|] eqn:Hc; cbn.
  - rewrite Hc. cbn. by rewrite !updateSessionInArray_ids.
  - by rewrite !updateSessionInArray_ids.
Qed.

(** X15. [sendMessage] and [streamMessage] never remove, reorder or
    re-identify a stored session, whatever the content, the outcome of
    the request and the callbacks of the stream: afterwards the ids of
    [sessions] are those from before, preceded by the id of the one
    session that the call creates when valid content is sent without a
    current session. *)
Theorem sending_keeps_stored_sessions content options w :
  (∀ transport,
     session_ids (state (exec (sendMessage transport content options) w))
     = created_by_send content w ++ session_ids (state w))
  ∧ (∀ transport,
       session_ids (state (exec (streamMessage transport content options) w))
       = created_by_send content w ++ session_ids (state w)).
Proof.
  pose proof (begin_send_ids content options w) as Hbegin.
  split; intros transport.
  - unfold exec, sendMessage, sendMessage_begin, mbind, M_bind in *.
    destruct (begin_send content options w) as [[|query aid] w1]; [done|].
    by apply sendMessage_resume_ids.
  - unfold exec, streamMessage, streamMessage_begin, mbind, M_bind in *.
    destruct (begin_send content options w) as [[|query aid] w1]; [done|].
    destruct (transport query) as [cbs settled].
    by apply streamMessage_resume_ids.
Qed.

End Ids.

(* ===================================================================== *)
(** ** Proofs: what the stream reader passes over *)
(* ===================================================================== *)

Section ReaderLines.
Context `{Runtime}.

Lemma process_line_ignored line :
  ignored_line line → process_line line = ([], false).
Proof.
  unfold process_line. intros [->|[Hd Hp]]; [done|].
  destruct (startsWith _ _); [|done].
  by rewrite bool_decide_eq_false_2, Hp by done.
Qed.

Lemma process_lines_app lines1 lines2 :
  process_lines (lines1 ++ lines2)
  = let '(cbs, returned) := process_lines lines1 in
    if returned then (cbs, true)
    else let '(cbs', returned') := process_lines lines2 in (cbs ++ cbs', returned').
Proof.
  induction lines1 as [|line lines1 IH]; cbn.
  - by destruct (process_lines lines2).
  - destruct (process_line line) as [cbs [|]]; [done|]. rewrite IH.
    destruct (process_lines lines1) as [cbs1 [|]]; [done|].
    destruct (process_lines lines2) as [cbs2 r2]. by rewrite app_assoc.
Qed.

Lemma process_lines_ignored lines :
  Forall ignored_line lines → process_lines lines = ([], false).
Proof.
  induction 1 as [|line lines Hl _ IH]; [done|]. cbn.
  by rewrite (process_line_ignored line Hl), IH.
Qed.

(** X16. A line that does not start with [data: ], or whose record
    [JSON.parse] rejects, is passed over: the callbacks invoked for the
    lines of a read are those invoked without that line, and a read that
    holds only such lines can be left out of the stream without changing
    the callbacks of the call. *)
Theorem ignored_lines_change_nothing lines1 line lines2 reads1 chunk reads2 ending :
  (ignored_line line →
   process_lines (lines1 ++ line :: lines2) = process_lines (lines1 ++ lines2))
  ∧ (Forall ignored_line (split_on 10 chunk) →
     read_loop (reads1 ++ chunk :: reads2) ending = read_loop (reads1 ++ reads2) ending).
Proof.
  split.
  - intros Hl. rewrite !process_lines_app. cbn [process_lines].
    rewrite (process_line_ignored line Hl).
    destruct (process_lines lines1) as [cbs1 [|]]; [done|].
    by destruct (process_lines lines2).
  - intros Hc. induction reads1 as [|r reads1 IH]; cbn [app read_loop].
    + by rewrite (process_lines_ignored _ Hc).
    + by rewrite IH.
Qed.

Lemma process_line_truthy line :
  Forall (λ cb, payload_truthy cb = true) (process_line line).1.
Proof.
  unfold process_line.
  destruct (startsWith _ _); [|by constructor].
  case_bool_decide; [by repeat constructor|].
  destruct (JSON_parse _) as [parsed|]; [|by constructor].
  destruct parsed; try by constructor.
  all: match goal with
       | |- context [has_type (js "error") ?p] =>
           destruct (has_type (js "error") p);
           [apply Forall_singleton; cbn [payload_truthy];
            destruct (prop (js "error") p) as [e|];
            [destruct (truthy e) eqn:He|]; done|]
       end.
  all: apply Forall_app; split.
  all: destruct (has_type _ _); try by constructor.
  all: destruct (prop _ _) as [v|]; try by constructor.
  all: destruct (truthy v) eqn:Hv; by repeat constructor.
Qed.

Lemma process_lines_truthy lines :
  Forall (λ cb, payload_truthy cb = true) (process_lines lines).1.
Proof.
  induction lines as [|line lines IH]; cbn; [by constructor|].
  pose proof (process_line_truthy line) as Hl.
  destruct (process_line line) as [cbs [|]]; [done|].
  destruct (process_lines lines) as [cbs' r]. by apply Forall_app.
Qed.

(** X17. While the body is read without the reader throwing, every
    payload that [streamChatMessage] hands to a callback is truthy: no
    empty chunk, no null metadata and no empty error text reaches the
    store. *)
Theorem delivered_payloads_are_truthy reads :
  Forall (λ cb, payload_truthy cb = true)
    (streamChatMessage (Body reads EndOfStream)).
Proof.
  cbn [streamChatMessage].
  induction reads as [|chunk reads IH]; cbn; [by repeat constructor|].
  pose proof (process_lines_truthy (split_on 10 chunk)) as Hl.
  destruct (process_lines _) as [cbs [|]]; [done|]. by apply Forall_app.
Qed.

End ReaderLines.

(* ===================================================================== *)
(** ** Proofs: the hook's send and teardown *)
(* ===================================================================== *)

(** X18. [sendMessageWithRetry] in closed form, for every render state
    and every behaviour of the send and of the probe: one send; if it
    fails while the hook rendered connected, the failure is rethrown at
    once; if it fails while the hook rendered disconnected, one wait of
    2000 ms and one probe follow and the same failure is rethrown. No
    second send, and no wait of 4000 or 6000 ms, ever happens. *)
Theorem sendMessageWithRetry_never_retries isConnected send health h :
  sendMessageWithRetry isConnected send health h
  = Some
      match send 0 with
      | Resolved _ => (Resolved tt, [Send], h)
      | Rejected error =>
          if isConnected then (Rejected error, [Send], h)
          else (Rejected error, [Send; Wait 2000; Probe],
                checkConnection (health 1) h)
      end.
Proof.
  unfold sendMessageWithRetry. cbn.
  destruct (send 0) as [[]|e]; [done|]. by destruct isConnected.
Qed.

Lemma filter_handle_length (k : nat) (ts : list Timer) :
  NoDup (handle <$> ts) →
  length ts ≤ S (length (filter (λ t, handle t ≠ k) ts)).
Proof.
  induction ts as [|t ts IH]; [cbn; lia|].
  rewrite fmap_cons. intros [Hnotin Hnd]%NoDup_cons.
  rewrite filter_cons. destruct (decide (handle t ≠ k)) as [Hne|Heq].
  - cbn. specialize (IH Hnd). lia.
  - apply dec_stable in Heq. subst k. cbn.
    replace (filter (λ t0, handle t0 ≠ handle t) ts) with ts; [lia|].
    clear IH Hnd. induction ts as [|t' ts IH]; [done|].
    rewrite fmap_cons in Hnotin. apply not_elem_of_cons in Hnotin as [Hne Hnotin].
    rewrite filter_cons_True by done. by rewrite <- IH.
Qed.

(** X19. After any sequence of probes, timeouts firing and unmounts, an
    unmount cancels at most one pending reconnect timeout: every other
    pending timeout stays armed, and what stays armed was pending before
    and has a delay of 5000 ms. *)
Theorem unmount_cancels_at_most_one evs :
  let h := hook_run evs in
  length (timeouts h) ≤ S (length (timeouts (hook_run (evs ++ [Unmount]))))
  ∧ Forall (λ t, t ∈ timeouts h ∧ delay t = 5000%Z)
      (timeouts (hook_run (evs ++ [Unmount]))).
Proof.
  intros h. pose proof (hook_run_wf evs) as [Hall Hnd]. fold h in Hall, Hnd.
  unfold hook_run. rewrite foldl_app. cbn. fold (hook_run evs). fold h.
  unfold cleanup. destruct (reconnectTimeoutRef h) as [k|].
  - cbn. split; [by apply filter_handle_length|].
    apply Forall_forall. intros t [_ Hin]%list_elem_of_filter. split; [done|].
    rewrite Forall_forall in Hall. by apply Hall.
  - split; [lia|]. apply Forall_forall. intros t Hin. split; [done|].
    rewrite Forall_forall in Hall. by apply Hall.
Qed.

(* ===================================================================== *)
(** ** Further statements at concrete inputs *)
(* ===================================================================== *)

Lemma sendMessage_settles_witness :
  ∃ c2,
    ChatState.currentSession
      (state (exec (@sendMessage reference_runtime answering (js " Hello ") no_options)
                fresh_world))
    = Some c2 ∧
    Message.content <$> ChatSession.messages c2
    = [js "Hello"; js "Apply at the registrar."] ∧
    ChatState.isLoading
      (state (exec (@sendMessage reference_runtime answering (js " Hello ") no_options)
                fresh_world))
    = false.
Proof.
  destruct (@sendMessage_settles reference_runtime (js " Hello ") no_options
              fresh_world answering)
    as (query & c2 & _ & _ & Hrest);
    [by vm_compute | by vm_compute | apply (bool_decide_unpack _); by vm_compute |].
  cbv zeta in Hrest. destruct Hrest as (Hc2 & _ & Hms & Hload & _).
  exists c2. split_and!; [exact Hc2| |exact Hload].
  rewrite Hms. by vm_compute.
Defined.

Lemma first_answer_title_witness :
  ChatSession.title
    <$> ChatState.currentSession
          (state (exec (@sendMessage reference_runtime answering
                          (js "How do I get my birth certificate reissued quickly")
                          no_options) fresh_world))
  = Some (Some (js "How do I get my birth...")).
Proof.
  destruct (@first_answer_sets_title reference_runtime
              (js "How do I get my birth certificate reissued quickly")
              no_options fresh_world answering)
    as (query & _ & Htitle); [by vm_compute..|].
  rewrite Htitle. by vm_compute.
Defined.

Lemma typing_indicator_witness :
  ∃ query aid w1,
    @sendMessage_begin reference_runtime (js "a") no_options fresh_world
    = (Awaiting query aid, w1) ∧
    isTyping (ChatState.currentSession (state w1)) = true ∧
    isTyping
      (ChatState.currentSession
         (state (exec (@sendMessage_resume reference_runtime query aid network_failure)
                   w1)))
    = false ∧
    getLastError
      (ChatState.error
         (state (exec (@sendMessage_resume reference_runtime query aid network_failure)
                   w1)))
      (ChatState.currentSession
         (state (exec (@sendMessage_resume reference_runtime query aid network_failure)
                   w1)))
    = Some (js "Network error: Unable to connect to the server").
Proof.
  destruct (@typing_indicator_follows_request reference_runtime (js "a") no_options
              fresh_world network_failure)
    as (query & aid & w1 & Hbegin & Htyping & Hrest);
    [by vm_compute | by vm_compute | apply (bool_decide_unpack _); by vm_compute |].
  cbv zeta in Hrest. destruct Hrest as [Hdone Herror].
  exists query, aid, w1. split_and!; [exact Hbegin|exact Htyping|exact Hdone|].
  exact Herror.
Defined.

Lemma stream_end_witness :
  ∃ c p,
    ChatState.currentSession
      (state (exec (@streamMessage reference_runtime
                      (λ _, ([onChunk (js "Hel"); onChunk (js "lo")]
                             ++ [onError (js "Stream error occurred")],
                             Resolved tt))
                      (js "hi") no_options) fresh_world))
    = Some c ∧
    last (ChatSession.messages c) = Some p ∧
    Message.content p = js "Hello" ∧
    Message.error p = Some (js "Stream error occurred") ∧
    Message.isLoading p = Some false.
Proof.
  destruct (@stream_end_settles_placeholder reference_runtime (js "hi") no_options
              fresh_world [onChunk (js "Hel"); onChunk (js "lo")]
              (onError (js "Stream error occurred")))
    as (c & p & Hc & Hlast & _ & Hload & _ & Hcontent & Herror & _);
    [by vm_compute | by vm_compute | apply (bool_decide_unpack _); by vm_compute
    | by repeat constructor | reflexivity |].
  exists c, p. split_and!; [exact Hc|exact Hlast|exact Hcontent|exact Herror|exact Hload].
Defined.

Lemma retry_does_nothing_witness :
  @retryLastMessage reference_runtime answering empty_session_world
  = (tt, empty_session_world).
Proof.
  apply (@retry_without_user_message_does_nothing reference_runtime
           empty_session_world answering).
  vm_compute. left. lia.
Defined.

Lemma retry_resends_last_witness :
  (∃ query aid w1 c1,
     @retryLastMessage_begin reference_runtime failed_world = (Awaiting query aid, w1) ∧
     text query = js "a" ∧
     ChatState.currentSession (state w1) = Some c1 ∧
     Message.role <$> ChatSession.messages c1 = [user; user; assistant])
  ∧ (∃ w1 c1,
       @retryLastMessage_begin reference_runtime blank_retry_world = (Returned, w1) ∧
       ChatState.currentSession (state w1) = Some c1 ∧
       ChatSession.messages c1 = [blank_user] ∧
       ChatState.error (state w1) = Some (js "Message cannot be empty")).
Proof.
  split.
  - pose proof (@retry_resends_last_user_message reference_runtime failed_world
                  failed_session [] failed_user [failed_assistant]) as Hretry.
    change (validateMessage (Message.content failed_user)) with (@None JsString)
      in Hretry.
    destruct Hretry as (query & aid & w1 & c1 & Hbegin & Htext & Hc1 & Hms);
      [reflexivity | reflexivity | vm_compute; lia | reflexivity
      | by repeat constructor |].
    exists query, aid, w1, c1. split_and!; [exact Hbegin|exact Htext|exact Hc1|].
    rewrite Hms. by vm_compute.
  - pose proof (@retry_resends_last_user_message reference_runtime blank_retry_world
                  blank_retry_session [] blank_user [failed_assistant]) as Hretry.
    change (validateMessage (Message.content blank_user))
      with (Some (js "Message cannot be empty")) in Hretry.
    destruct Hretry as (w1 & c1 & Hbegin & Hc1 & Hms & Herr & _);
      [reflexivity | reflexivity | vm_compute; lia | reflexivity
      | by repeat constructor |].
    exists w1, c1. split_and!; [exact Hbegin|exact Hc1| |exact Herr].
    rewrite Hms. by vm_compute.
Defined.

Lemma loadSession_witness :
  ChatSession.messages
    <$> ChatState.currentSession
          (state (exec (loadSession (js "id-0"))
                    (exec clearCurrentSession failed_world)))
  = Some [failed_user; failed_assistant]
  ∧ fst (loadSession (js "id-9") failed_world)
    = Rejected (OtherError (js "Session not found"))
  ∧ ChatState.currentSession
      (state (exec (loadSession (js "id-9")) failed_world))
    = Some failed_session.
Proof.
  split_and!.
  - destruct (loadSession_known_or_unknown (js "id-0")
                (exec clearCurrentSession failed_world))
      as (_ & Hknown & _).
    destruct Hknown as (i & s & Hfind & _ & Hcurrent & _);
      [done | apply (bool_decide_unpack _); by vm_compute |].
    rewrite Hcurrent. vm_compute in Hfind. by injection Hfind as _ <-.
  - destruct (loadSession_known_or_unknown (js "id-9") failed_world)
      as (_ & _ & Hunknown).
    destruct Hunknown as (_ & _ & Hr);
      [apply (bool_decide_unpack _); by vm_compute|].
    exact Hr.
  - destruct (loadSession_known_or_unknown (js "id-9") failed_world)
      as (_ & _ & Hunknown).
    destruct Hunknown as (Hcurrent & _);
      [apply (bool_decide_unpack _); by vm_compute|].
    exact Hcurrent.
Defined.

Lemma importSession_witness :
  ∃ w',
    @importSession reference_runtime exported_failed_session failed_world
    = Some (true, w')
    ∧ ChatSession.id <$> ChatState.sessions (state w')
      = [@generateId_draw reference_runtime (draws failed_world); js "id-0"].
Proof.
  destruct (@importSession_all_or_nothing reference_runtime exported_failed_session
              failed_world)
    as (b & w' & Himport & -> & _ & _ & Hrest).
  { vm_compute. by eexists. }
  change (bool_decide _) with true in Himport, Hrest.
  destruct Hrest as (session & Hsessions & _ & Hid & _).
  exists w'. split; [exact Himport|]. rewrite Hsessions. cbn. rewrite Hid.
  by vm_compute.
Defined.

Lemma addMessage_then_deleteMessage_witness :
  prior_messages
    (state (exec (@addMessage reference_runtime
                    (mkMessageData None None system (js "note") None None None);;
                  deleteMessage (@generateId_draw reference_runtime (draws failed_world)))
              failed_world))
  = [failed_user; failed_assistant].
Proof.
  apply (@addMessage_then_deleteMessage reference_runtime
           (mkMessageData None None system (js "note") None None None)
           failed_world failed_session).
  - reflexivity.
  - apply (bool_decide_unpack _). by vm_compute.
Defined.

Lemma updateMessage_unknown_id_witness :
  updateMessage (js "id-4")
    (Message.mkPartial None None (Some (js "x")) None None None None) failed_world
  = (tt, failed_world).
Proof.
  apply (updateMessage_unknown_id (js "id-4")).
  apply (bool_decide_unpack _). by vm_compute.
Defined.

Lemma failed_world_reachable : @reachable reference_runtime failed_world.
Proof.
  change failed_world
    with (exec (@sendMessage_resume reference_runtime failed_query
                  failed_placeholder_id network_failure)
            (exec (@begin_send reference_runtime (js "a") no_options;; mret tt)
               (mkWorld (ChatState.mk None [] false None true) 0))).
  apply reach_segment; [|apply seg_sendMessage_resume].
  apply reach_segment; [|apply seg_begin_send].
  apply reach_start.
Qed.

Lemma current_session_is_stored_witness :
  ∃ s, stored_copy (state failed_world) failed_session = Some s
       ∧ ChatSession.messages s = [failed_user; failed_assistant].
Proof.
  destruct (@current_session_is_stored reference_runtime failed_world failed_session)
    as (s & Hcopy & _ & _ & Hms & _); [exact failed_world_reachable|reflexivity|].
  exists s. split; [exact Hcopy|exact Hms].
Defined.

Lemma ignored_lines_witness :
  @process_lines reference_runtime
    ([js "data: not json"] ++ js "event: message" :: [js "data: [DONE]"])
  = @process_lines reference_runtime ([js "data: not json"] ++ [js "data: [DONE]"])
  ∧ @read_loop reference_runtime ([] ++ js ": keep-alive" :: [js "data: [DONE]"])
      EndOfStream
    = @read_loop reference_runtime ([] ++ [js "data: [DONE]"]) EndOfStream.
Proof.
  split.
  - apply (@ignored_lines_change_nothing reference_runtime
             [js "data: not json"] (js "event: message") [js "data: [DONE]"]
             [] [] [] EndOfStream).
    left. by vm_compute.
  - apply (@ignored_lines_change_nothing reference_runtime
             [] [] [] [] (js ": keep-alive") [js "data: [DONE]"] EndOfStream).
    apply Forall_singleton. left. by vm_compute.
Defined.

Lemma response_after_session_switch_witness :
  ∃ c2,
    ChatState.currentSession
      (state (exec (@sendMessage_resume reference_runtime
                      (mkChatQuery (js "Do I need a permit?") None (Some (js "id-20")))
                      (js "id-25")
                      (answering (mkChatQuery (js "Do I need a permit?") None
                                    (Some (js "id-20")))))
                failed_world))
    = Some c2 ∧
    ChatSession.messages c2 = [failed_user; failed_assistant] ∧
    ChatSession.title c2 = Some (js "Do I need a permit?").
Proof.
  destruct (@response_after_session_switch reference_runtime
              (mkChatQuery (js "Do I need a permit?") None (Some (js "id-20")))
              (js "id-25")
              (answering (mkChatQuery (js "Do I need a permit?") None
                            (Some (js "id-20"))))
              failed_world failed_session)
    as (c2 & Hc2 & Hms & Htitle & _);
    [reflexivity | apply (bool_decide_unpack _); by vm_compute |].
  exists c2. split_and!; [exact Hc2|exact Hms|]. rewrite Htitle. by vm_compute.
Defined.
